(** * motion_capture_tracking_node: configuration building and frame loop

    A shallow embedding of [src/motion_capture_tracking_node.cpp].

    - [std::string] is [string]; [size_t] is a [Z] reduced modulo [2^64].
    - [std::set<std::string>] is [StringSet] (sorted list, iterated in
      increasing order); [std::map<std::string, V>] is [StringMap.t V]
      (sorted association list, iterated in increasing key order).
    - [double] and [float] are IEEE-754 binary64 and binary32 values
      ([spec_float], with the operations at the matching precision).
    - C++ evaluation has three outcomes: a value, a thrown exception (which
      nothing in [main] catches, so the process terminates there), or
      undefined behaviour (an unchecked out-of-range [operator[]]).
    - The frame loop runs in a state monad over [World]; the capture
      backend and the two clocks are oracles of the environment [Env],
      read through counters; the object tracker and Eigen's rotation to
      quaternion conversion are parameters ([ObjectTrackerOps],
      [EigenOps]); what the loop publishes and logs is a trace of [Event]s.

    The definitions come first (the program, then the vocabulary of the
    statements and the example inputs), the proofs after them.  The
    properties of the specification are marked C1 to C10. *)

From Stdlib Require Import ZArith Lia List Bool String Ascii.
From Stdlib Require Import Permutation Sorted SetoidList.
From Stdlib Require Import OrdersEx OrderedTypeEx MSetList FMapList FMapFacts.
From Stdlib Require MSetProperties.
From Stdlib Require Import SpecFloat.
Import ListNotations.

Local Open Scope string_scope.
Local Open Scope Z_scope.

(** ** Outcomes of C++ evaluation *)

Inductive exn : Type :=
| out_of_range            (* std::out_of_range: map::at, vector::at, substr *)
| ParameterTypeException. (* rclcpp: ParameterValue::get<T> on another type *)

Inductive outcome (A : Type) : Type :=
| Ok (a : A)
| Throw (e : exn)
| Undefined.

Arguments Ok {A} a.
Arguments Throw {A} e.
Arguments Undefined {A}.

Definition bind {A B : Type} (m : outcome A) (k : A -> outcome B) : outcome B :=
  match m with
  | Ok a => k a
  | Throw e => Throw e
  | Undefined => Undefined
  end.

Notation "x <- m ;; k" := (bind m (fun x => k))
  (at level 61, m at next level, right associativity).

(** A range-for loop whose body may throw: the body is run on the elements
    in order, threading the loop-carried state. *)
Fixpoint for_each {A S : Type} (body : S -> A -> outcome S) (l : list A) (s : S)
  : outcome S :=
  match l with
  | [] => Ok s
  | a :: l' => s' <- body s a ;; for_each body l' s'
  end.

(** ** [size_t] and [std::string] *)

Definition size_t (z : Z) : Z := z mod 2 ^ 64.
Definition npos : Z := 2 ^ 64 - 1.

Definition size (s : string) : Z := Z.of_nat (String.length s).

(** [s.find(pat, pos)]: index of the first occurrence of [pat] in [s] at or
    after [pos]; [npos] when there is none, in particular when
    [pos > s.size()]. *)
Definition find (s pat : string) (pos : Z) : Z :=
  if size s <? pos then npos
  else match String.index (Z.to_nat pos) pat s with
       | Some n => Z.of_nat n
       | None => npos
       end.

(** [s.substr(pos, count)]: throws [std::out_of_range] when
    [pos > s.size()]; otherwise the characters [[pos, pos + rlen)] with
    [rlen = min(count, s.size() - pos)]. *)
Definition substr (s : string) (pos count : Z) : outcome string :=
  if size s <? pos then Throw out_of_range
  else Ok (String.substring (Z.to_nat pos)
                            (Z.to_nat (Z.min count (size s - pos))) s).

(** ** Ordered containers *)

Module StringOT <: OrderedTypeWithLeibniz.
Include OrdersEx.String_as_OT.
Lemma eq_leibniz : forall x y : t, eq x y -> x = y.
Proof. intros x y H; exact H. Qed.
End StringOT.

Module StringSet := MSetList.MakeWithLeibniz StringOT.
Module StringMap := FMapList.Make OrderedTypeEx.String_as_OT.
Module StringMapFacts := FMapFacts.WFacts_fun OrderedTypeEx.String_as_OT StringMap.
Module StringSetProps := MSetProperties.Properties StringSet.

(** [m.at(k)]: throws [std::out_of_range] when [k] is not a key. *)
Definition at_ {V : Type} (m : StringMap.t V) (k : string) : outcome V :=
  match StringMap.find k m with
  | Some v => Ok v
  | None => Throw out_of_range
  end.

(** Map built by successive [m[k] = v] assignments. *)
Definition map_of_list {V : Type} (l : list (string * V)) : StringMap.t V :=
  fold_left (fun m kv => StringMap.add (fst kv) (snd kv) m) l (StringMap.empty V).

(** ** Numbers *)

Definition double : Type := spec_float.
Definition float : Type := spec_float.

(** [int] is 32 bits wide: converting an [int64_t] keeps the low 32 bits,
    read as two's complement. *)
Definition int_of_int64 (v : Z) : Z := (v + 2 ^ 31) mod 2 ^ 32 - 2 ^ 31.

(** Integer to [double] conversion (round to nearest even). *)
Definition double_of_int (v : Z) : double := binary_normalize 53 1024 v 0 false.

Definition double_add (x y : double) : double := SFadd 53 1024 x y.
Definition double_div (x y : double) : double := SFdiv 53 1024 x y.

(** [double] to [float] conversion (round to nearest even). *)
Definition float_of_double (d : double) : float :=
  match d with
  | S754_finite s m e => binary_normalize 24 128 (cond_Zopp s (Zpos m)) e s
  | _ => d
  end.

(** ** [rclcpp::ParameterValue] *)

Inductive ParameterValue : Type :=
| PARAMETER_NOT_SET
| PARAMETER_BOOL (b : bool)
| PARAMETER_INTEGER (i : Z)
| PARAMETER_DOUBLE (d : double)
| PARAMETER_STRING (s : string)
| PARAMETER_BYTE_ARRAY (l : list Z)
| PARAMETER_BOOL_ARRAY (l : list bool)
| PARAMETER_INTEGER_ARRAY (l : list Z)
| PARAMETER_DOUBLE_ARRAY (l : list double)
| PARAMETER_STRING_ARRAY (l : list string).

Definition get_double (p : ParameterValue) : outcome double :=
  match p with PARAMETER_DOUBLE d => Ok d | _ => Throw ParameterTypeException end.

Definition get_string (p : ParameterValue) : outcome string :=
  match p with PARAMETER_STRING s => Ok s | _ => Throw ParameterTypeException end.

Definition get_double_array (p : ParameterValue) : outcome (list double) :=
  match p with PARAMETER_DOUBLE_ARRAY l => Ok l | _ => Throw ParameterTypeException end.

Definition overrides : Type := StringMap.t ParameterValue.

(** ** [extract_names] *)

(** Body of the loop of [extract_names] for one entry [i] of the map. *)
Definition extract_names_body (pattern : string)
    (result : StringSet.t) (i : string * ParameterValue) : outcome StringSet.t :=
  if find (fst i) pattern 0 =? 0 then
    let start := size_t (size pattern + 1) in
    let end_ := find (fst i) "." start in
    tok <- substr (fst i) start (size_t (end_ - start)) ;;
    Ok (StringSet.add tok result)
  else Ok result.

Definition extract_names_from (entries : list (string * ParameterValue))
    (pattern : string) : outcome StringSet.t :=
  for_each (extract_names_body pattern) entries StringSet.empty.

Definition extract_names (parameter_overrides : overrides) (pattern : string)
  : outcome StringSet.t :=
  extract_names_from (StringMap.elements parameter_overrides) pattern.

(** ** [get_vec] *)

Definition get_vec (param_value : ParameterValue) : outcome (list double) :=
  match param_value with
  | PARAMETER_INTEGER_ARRAY int_vec =>
      Ok (map (fun v => double_of_int (int_of_int64 v)) int_vec)
  | _ => get_double_array param_value
  end.

(** ** [std::vector] access *)

(** [v.at(n)]: bounds-checked, throws [std::out_of_range]. *)
Definition vec_at {A : Type} (v : list A) (n : nat) : outcome A :=
  match nth_error v n with
  | Some a => Ok a
  | None => Throw out_of_range
  end.

(** [v[n]] read: not bounds-checked, undefined behaviour out of range. *)
Definition vec_index {A : Type} (v : list A) (n : nat) : outcome A :=
  match nth_error v n with
  | Some a => Ok a
  | None => Undefined
  end.

(** [v[i] = a] write: not bounds-checked either. *)
Definition vec_store {A : Type} (v : list A) (i : Z) (a : A) : outcome (list A) :=
  if (0 <=? i) && (i <? Z.of_nat (length v))
  then Ok (firstn (Z.to_nat i) v ++ a :: skipn (S (Z.to_nat i)) v)%list
  else Undefined.

(** ** Tracker configuration types (librigidbodytracker, Eigen, pcl) *)

Record DynamicsConfiguration : Type := {
  maxXVelocity : double;
  maxYVelocity : double;
  maxZVelocity : double;
  maxRollRate : double;
  maxPitchRate : double;
  maxYawRate : double;
  maxRoll : double;
  maxPitch : double;
  maxFitnessScore : double
}.

Definition double_zero : double := S754_zero false.
Definition float_zero : float := S754_zero false.
Definition float_one : float := Eval cbv in float_of_double (double_of_int 1).

(** Element of [std::vector<DynamicsConfiguration>(n)]: value-initialised. *)
Definition DynamicsConfiguration_init : DynamicsConfiguration :=
  {| maxXVelocity := double_zero; maxYVelocity := double_zero;
     maxZVelocity := double_zero; maxRollRate := double_zero;
     maxPitchRate := double_zero; maxYawRate := double_zero;
     maxRoll := double_zero; maxPitch := double_zero;
     maxFitnessScore := double_zero |}.

Record PointXYZ : Type := { px : float; py : float; pz : float }.

(** [pcl::PointXYZ(x, y, z)] called on [double] arguments. *)
Definition PointXYZ_of_doubles (x y z : double) : PointXYZ :=
  {| px := float_of_double x; py := float_of_double y; pz := float_of_double z |}.

Definition MarkerConfiguration : Type := list PointXYZ.

Record Vector3f : Type := { vx : float; vy : float; vz : float }.
Record Quaternionf : Type := { qx : float; qy : float; qz : float; qw : float }.
Record Matrix3f : Type := { row0 : Vector3f; row1 : Vector3f; row2 : Vector3f }.
Record Affine3f : Type := { linear : Matrix3f; translation : Vector3f }.

Definition Matrix3f_Identity : Matrix3f :=
  {| row0 := {| vx := float_one; vy := float_zero; vz := float_zero |};
     row1 := {| vx := float_zero; vy := float_one; vz := float_zero |};
     row2 := {| vx := float_zero; vy := float_zero; vz := float_one |} |}.

(** [Eigen::Affine3f m; m = Eigen::Translation3f(x, y, z);] on [double]
    arguments. *)
Definition Translation3f (x y z : double) : Affine3f :=
  {| linear := Matrix3f_Identity;
     translation := {| vx := float_of_double x; vy := float_of_double y;
                       vz := float_of_double z |} |}.

(** Ticks of [std::chrono::high_resolution_clock]. *)
Definition time_point : Type := Z.

(** [librigidbodytracker::Object]: the two configuration indices and the
    name given at construction, and the fit state that the tracker
    maintains and the frame loop reads. *)
Record Object : Type := {
  markerConfigurationIdx : Z;
  dynamicsConfigurationIdx : Z;
  initialTransformation : Affine3f;
  name : string;
  transformation : Affine3f;
  lastTransformationValid : bool;
  lastValidTime : time_point
}.

(** [librigidbodytracker::Object(markerIdx, dynamicsIdx, m, name)]. *)
Definition Object_new (markerIdx dynamicsIdx : Z) (m : Affine3f) (nm : string)
  : Object :=
  {| markerConfigurationIdx := markerIdx;
     dynamicsConfigurationIdx := dynamicsIdx;
     initialTransformation := m;
     name := nm;
     transformation := m;
     lastTransformationValid := false;
     lastValidTime := 0 |}.

(** ** Configuration building ([main], lines 97-146) *)

Definition read_vec (parameter_overrides : overrides) (key : string)
  : outcome (list double) :=
  p <- at_ parameter_overrides key ;; get_vec p.

Definition read_double (parameter_overrides : overrides) (key : string)
  : outcome double :=
  p <- at_ parameter_overrides key ;; get_double p.

Definition read_string (parameter_overrides : overrides) (key : string)
  : outcome string :=
  p <- at_ parameter_overrides key ;; get_string p.

(** State carried by the dynamics loop: the vector, the name-to-index map
    and the counter [i]. *)
Record dynamics_state : Type := {
  dynamicsConfigurations : list DynamicsConfiguration;
  dynamics_name_to_index : StringMap.t Z;
  dyn_i : Z
}.

(** Body of the loop over [dynamics_config_names] (lines 102-114).  The nine
    reads happen in source order; the nine field assignments to
    [dynamicsConfigurations[i]] are gathered into one store. *)
Definition dynamics_body (parameter_overrides : overrides)
    (st : dynamics_state) (name : string) : outcome dynamics_state :=
  let pre := ("dynamics_configurations." ++ name)%string in
  max_vel <- read_vec parameter_overrides (pre ++ ".max_velocity")%string ;;
  mxv <- vec_at max_vel 0 ;;
  myv <- vec_at max_vel 1 ;;
  mzv <- vec_at max_vel 2 ;;
  max_angular_velocity <-
    read_vec parameter_overrides (pre ++ ".max_angular_velocity")%string ;;
  mrr <- vec_at max_angular_velocity 0 ;;
  mpr <- vec_at max_angular_velocity 1 ;;
  myr <- vec_at max_angular_velocity 2 ;;
  mr <- read_double parameter_overrides (pre ++ ".max_roll")%string ;;
  mp <- read_double parameter_overrides (pre ++ ".max_pitch")%string ;;
  mf <- read_double parameter_overrides (pre ++ ".max_fitness_score")%string ;;
  cfgs <- vec_store (dynamicsConfigurations st) (dyn_i st)
            {| maxXVelocity := mxv; maxYVelocity := myv; maxZVelocity := mzv;
               maxRollRate := mrr; maxPitchRate := mpr; maxYawRate := myr;
               maxRoll := mr; maxPitch := mp; maxFitnessScore := mf |} ;;
  Ok {| dynamicsConfigurations := cfgs;
        dynamics_name_to_index :=
          StringMap.add name (dyn_i st) (dynamics_name_to_index st);
        dyn_i := size_t (dyn_i st + 1) |}.

(** Inner loop over all overrides (lines 124-131): every entry whose key
    starts with ["marker_configurations." + name + ".points"] contributes
    one point, read with unchecked [operator[]]. *)
Definition marker_points_body (name : string) (offset : list double)
    (cloud : MarkerConfiguration) (param : string * ParameterValue)
  : outcome MarkerConfiguration :=
  if find (fst param) ("marker_configurations." ++ name ++ ".points")%string 0 =? 0
  then
    points <- get_vec (snd param) ;;
    p0 <- vec_index points 0 ;; o0 <- vec_index offset 0 ;;
    p1 <- vec_index points 1 ;; o1 <- vec_index offset 1 ;;
    p2 <- vec_index points 2 ;; o2 <- vec_index offset 2 ;;
    Ok (cloud ++ [PointXYZ_of_doubles (double_add p0 o0) (double_add p1 o1)
                                      (double_add p2 o2)])%list
  else Ok cloud.

(** State carried by the marker loop.  The counter [i] is the variable of
    the dynamics loop: the marker loop reads it and never writes it. *)
Record marker_state : Type := {
  markerConfigurations : list MarkerConfiguration;
  marker_name_to_index : StringMap.t Z
}.

(** Body of the loop over [marker_config_names] (lines 122-132). *)
Definition marker_body (parameter_overrides : overrides) (i : Z)
    (st : marker_state) (name : string) : outcome marker_state :=
  offset <- read_vec parameter_overrides
              ("marker_configurations." ++ name ++ ".offset")%string ;;
  cloud <- for_each (marker_points_body name offset)
             (StringMap.elements parameter_overrides) [] ;;
  Ok {| markerConfigurations := (markerConfigurations st ++ [cloud])%list;
        marker_name_to_index := StringMap.add name i (marker_name_to_index st) |}.

(** Body of the loop over [rigid_body_names] (lines 139-145).  The two
    [at] calls are arguments of one constructor call; they are taken from
    left to right, and both throw the same exception. *)
Definition rigid_body_body (parameter_overrides : overrides)
    (marker_name_to_index dynamics_name_to_index : StringMap.t Z)
    (objects : list Object) (name : string) : outcome (list Object) :=
  let pre := ("rigid_bodies." ++ name)%string in
  pos <- read_vec parameter_overrides (pre ++ ".initial_position")%string ;;
  x <- vec_index pos 0 ;;
  y <- vec_index pos 1 ;;
  z <- vec_index pos 2 ;;
  let m := Translation3f x y z in
  marker <- read_string parameter_overrides (pre ++ ".marker")%string ;;
  dynamics <- read_string parameter_overrides (pre ++ ".dynamics")%string ;;
  mi <- at_ marker_name_to_index marker ;;
  di <- at_ dynamics_name_to_index dynamics ;;
  Ok (objects ++ [Object_new mi di m name])%list.

(** What [main] hands to the [ObjectTracker] constructor. *)
Record Configuration : Type := {
  cfg_dynamicsConfigurations : list DynamicsConfiguration;
  cfg_markerConfigurations : list MarkerConfiguration;
  cfg_objects : list Object
}.

Definition build_configuration (parameter_overrides : overrides)
  : outcome Configuration :=
  dynamics_config_names <-
    extract_names parameter_overrides "dynamics_configurations" ;;
  dyn <- for_each (dynamics_body parameter_overrides)
           (StringSet.elements dynamics_config_names)
           {| dynamicsConfigurations :=
                repeat DynamicsConfiguration_init
                       (length (StringSet.elements dynamics_config_names));
              dynamics_name_to_index := StringMap.empty Z;
              dyn_i := 0 |} ;;
  let i := dyn_i dyn in
  marker_config_names <-
    extract_names parameter_overrides "marker_configurations" ;;
  mk <- for_each (marker_body parameter_overrides i)
          (StringSet.elements marker_config_names)
          {| markerConfigurations := [];
             marker_name_to_index := StringMap.empty Z |} ;;
  rigid_body_names <- extract_names parameter_overrides "rigid_bodies" ;;
  objects <- for_each
               (rigid_body_body parameter_overrides
                  (marker_name_to_index mk) (dynamics_name_to_index dyn))
               (StringSet.elements rigid_body_names) [] ;;
  Ok {| cfg_dynamicsConfigurations := dynamicsConfigurations dyn;
        cfg_markerConfigurations := markerConfigurations mk;
        cfg_objects := objects |}.

(** ** Messages (sensor_msgs, geometry_msgs) *)

(** [rclcpp::Time]: nanoseconds. *)
Definition Time : Type := Z.

Record Header : Type := { stamp : Time; frame_id : string }.

Record PointField : Type := {
  field_name : string;
  field_offset : Z;
  field_datatype : Z;
  field_count : Z
}.

Definition FLOAT32 : Z := 7.

Record PointCloud2 : Type := {
  pc_header : Header;
  pc_height : Z;
  pc_width : Z;
  pc_fields : list PointField;
  pc_is_bigendian : bool;
  pc_point_step : Z;
  pc_row_step : Z;
  pc_data : list Z;      (* bytes *)
  pc_is_dense : bool
}.

Record Vector3 : Type := { v3x : double; v3y : double; v3z : double }.
Record Quaternion : Type := { rx : double; ry : double; rz : double; rw : double }.
Record Transform : Type := { tf_translation : Vector3; tf_rotation : Quaternion }.

Record TransformStamped : Type := {
  ts_header : Header;
  child_frame_id : string;
  transform : Transform
}.

(** [float] to [double] conversion (exact). *)
Definition double_of_float (f : float) : double :=
  match f with
  | S754_finite s m e => binary_normalize 53 1024 (cond_Zopp s (Zpos m)) e s
  | _ => f
  end.

(** Object representation of a [float]: the binary32 encoding, least
    significant byte first. *)
Definition float_bits (f : float) : Z :=
  match f with
  | S754_zero s => if s then 2 ^ 31 else 0
  | S754_infinity s => (if s then 2 ^ 31 else 0) + 255 * 2 ^ 23
  | S754_nan => 255 * 2 ^ 23 + 2 ^ 22
  | S754_finite s m e =>
      (if s then 2 ^ 31 else 0)
      + (if Zpos m <? 2 ^ 23 then Zpos m
         else (e + 150) * 2 ^ 23 + (Zpos m - 2 ^ 23))
  end.

Definition float_bytes (f : float) : list Z :=
  let w := float_bits f in
  [w mod 256; (w / 2 ^ 8) mod 256; (w / 2 ^ 16) mod 256; (w / 2 ^ 24) mod 256].

(** ** Capture backend (libmotioncapture) *)

Record RigidBody : Type := {
  rb_name : string;
  rb_position : Vector3f;
  rb_rotation : Quaternionf
}.

(** One captured frame: the [N x 3] row-major matrix of [pointCloud()] and
    the map of [rigidBodies()]. *)
Record Frame : Type := {
  pointCloud : list Vector3f;
  rigidBodies : StringMap.t RigidBody
}.

Definition rows (pointcloud : list Vector3f) : Z := Z.of_nat (length pointcloud).

(** The storage behind [pointcloud.data()]. *)
Definition pointcloud_data (pointcloud : list Vector3f) : list Z :=
  flat_map (fun p => float_bytes (vx p) ++ float_bytes (vy p) ++ float_bytes (vz p))%list
           pointcloud.

(** [v.resize(n)] on a byte vector. *)
Definition resize (v : list Z) (n : Z) : list Z :=
  (firstn (Z.to_nat n) v ++ repeat 0 (Z.to_nat n - length v))%list.

(** [memcpy(dst, src, n)] where [dst] is the whole of a vector's storage. *)
Definition memcpy (dst src : list Z) (n : Z) : list Z :=
  (firstn (Z.to_nat n) src ++ skipn (Z.to_nat n) dst)%list.

Definition uint32 (z : Z) : Z := z mod 2 ^ 32.

(** ** External collaborators *)

(** The object tracker: built once from the configuration, updated with the
    marker cloud of each frame (which may log warnings through the bound
    [logWarn] callback), and read through [objects()]. *)
Class ObjectTrackerOps : Type := {
  ObjectTracker : Type;
  tracker_new : list DynamicsConfiguration -> list MarkerConfiguration ->
                list Object -> ObjectTracker;
  tracker_update : ObjectTracker -> list PointXYZ -> ObjectTracker * list string;
  tracker_objects : ObjectTracker -> list Object
}.

(** [Eigen::Quaternionf q(transform.rotation())]. *)
Class EigenOps : Type := {
  rotation_quaternion : Affine3f -> Quaternionf
}.

(** What the environment supplies: the frame delivered by the k-th
    [waitForNextFrame()], the value of the k-th [node->now()] and of the
    k-th [high_resolution_clock::now()] made by the loop. *)
Record Env : Type := {
  env_frame : nat -> Frame;
  env_wall : nat -> Time;
  env_chrono : nat -> time_point
}.

(** ** Observable effects *)

Inductive Event : Type :=
| PublishPointCloud (msg : PointCloud2)
| SendTransform (batch : list TransformStamped)
| LogWarn (msg : string)
| WarnNoUpdatedPose (body : string) (elapsedSeconds : double)
| SpinSome.

(** [std::chrono::duration<double> elapsedSeconds = chrono_now - last]: the
    difference of two readings of the same clock, in ticks of one
    nanosecond, converted to seconds in [double]. *)
Definition elapsed_seconds (now last : time_point) : double :=
  double_div (double_of_int (now - last)) (double_of_int 1000000000).

(** ** The frame loop ([main], lines 160-245) *)

Section FrameLoop.

Context {TR : ObjectTrackerOps} {EI : EigenOps}.
Variable env : Env.

Record World : Type := {
  frames_waited : nat;       (* completed [waitForNextFrame()] calls *)
  wall_reads : nat;          (* completed [node->now()] calls *)
  chrono_reads : nat;        (* completed [high_resolution_clock::now()] calls *)
  mocap : Frame;             (* the frame the backend currently holds *)
  tracker : ObjectTracker;
  msgPointCloud : PointCloud2;
  transforms : list TransformStamped;
  markers : list PointXYZ;
  trace : list Event
}.

Definition M (A : Type) : Type := World -> A * World.
Definition ret {A : Type} (a : A) : M A := fun w => (a, w).
Definition seq {A B : Type} (m : M A) (k : A -> M B) : M B :=
  fun w => let (a, w') := m w in k a w'.
Definition exec {A : Type} (m : M A) (w : World) : World := snd (m w).

Notation "x <~ m ;; k" := (seq m (fun x => k))
  (at level 61, m at next level, right associativity).
Notation "m ;;; k" := (seq m (fun _ => k))
  (at level 61, right associativity).

(** A range-for loop in [M]. *)
Fixpoint forM {A : Type} (body : A -> M unit) (l : list A) : M unit :=
  match l with
  | [] => ret tt
  | a :: l' => body a ;;; forM body l'
  end.

Definition emit (e : Event) : M unit := fun w =>
  (tt, {| frames_waited := frames_waited w; wall_reads := wall_reads w;
          chrono_reads := chrono_reads w; mocap := mocap w;
          tracker := tracker w; msgPointCloud := msgPointCloud w;
          transforms := transforms w; markers := markers w;
          trace := (trace w ++ [e])%list |}).

Definition waitForNextFrame : M unit := fun w =>
  (tt, {| frames_waited := S (frames_waited w); wall_reads := wall_reads w;
          chrono_reads := chrono_reads w;
          mocap := env_frame env (frames_waited w);
          tracker := tracker w; msgPointCloud := msgPointCloud w;
          transforms := transforms w; markers := markers w;
          trace := trace w |}).

Definition high_resolution_clock_now : M time_point := fun w =>
  (env_chrono env (chrono_reads w),
   {| frames_waited := frames_waited w; wall_reads := wall_reads w;
      chrono_reads := S (chrono_reads w); mocap := mocap w;
      tracker := tracker w; msgPointCloud := msgPointCloud w;
      transforms := transforms w; markers := markers w;
      trace := trace w |}).

Definition node_now : M Time := fun w =>
  (env_wall env (wall_reads w),
   {| frames_waited := frames_waited w; wall_reads := S (wall_reads w);
      chrono_reads := chrono_reads w; mocap := mocap w;
      tracker := tracker w; msgPointCloud := msgPointCloud w;
      transforms := transforms w; markers := markers w;
      trace := trace w |}).

Definition mocap_pointCloud : M (list Vector3f) := fun w => (pointCloud (mocap w), w).
Definition mocap_rigidBodies : M (StringMap.t RigidBody) :=
  fun w => (rigidBodies (mocap w), w).

Definition get_msgPointCloud : M PointCloud2 := fun w => (msgPointCloud w, w).
Definition set_msgPointCloud (m : PointCloud2) : M unit := fun w =>
  (tt, {| frames_waited := frames_waited w; wall_reads := wall_reads w;
          chrono_reads := chrono_reads w; mocap := mocap w;
          tracker := tracker w; msgPointCloud := m;
          transforms := transforms w; markers := markers w;
          trace := trace w |}).

Definition get_transforms : M (list TransformStamped) := fun w => (transforms w, w).
Definition set_transforms (t : list TransformStamped) : M unit := fun w =>
  (tt, {| frames_waited := frames_waited w; wall_reads := wall_reads w;
          chrono_reads := chrono_reads w; mocap := mocap w;
          tracker := tracker w; msgPointCloud := msgPointCloud w;
          transforms := t; markers := markers w;
          trace := trace w |}).

Definition get_markers : M (list PointXYZ) := fun w => (markers w, w).
Definition set_markers (m : list PointXYZ) : M unit := fun w =>
  (tt, {| frames_waited := frames_waited w; wall_reads := wall_reads w;
          chrono_reads := chrono_reads w; mocap := mocap w;
          tracker := tracker w; msgPointCloud := msgPointCloud w;
          transforms := transforms w; markers := m;
          trace := trace w |}).

Definition get_tracker : M ObjectTracker := fun w => (tracker w, w).
Definition set_tracker (t : ObjectTracker) : M unit := fun w =>
  (tt, {| frames_waited := frames_waited w; wall_reads := wall_reads w;
          chrono_reads := chrono_reads w; mocap := mocap w;
          tracker := t; msgPointCloud := msgPointCloud w;
          transforms := transforms w; markers := markers w;
          trace := trace w |}).

(** [transforms.resize(transforms.size() + 1)] followed by the assignments
    to every field of [transforms.back()]. *)
Definition push_transform (t : TransformStamped) : M unit :=
  ts <~ get_transforms ;; set_transforms (ts ++ [t])%list.

Definition push_marker (p : PointXYZ) : M unit :=
  ms <~ get_markers ;; set_markers (ms ++ [p])%list.

(** Lines 170-174: the message fields assigned in each cycle. *)
Definition fill_cloud (time : Time) (pointcloud : list Vector3f)
    (m : PointCloud2) : PointCloud2 :=
  let resized := resize (pc_data m) (size_t (rows pointcloud * 3 * 4)) in
  let data := memcpy resized (pointcloud_data pointcloud)
                     (Z.of_nat (length resized)) in
  {| pc_header := {| stamp := time; frame_id := frame_id (pc_header m) |};
     pc_height := pc_height m;
     pc_width := uint32 (rows pointcloud);
     pc_fields := pc_fields m;
     pc_is_bigendian := pc_is_bigendian m;
     pc_point_step := pc_point_step m;
     pc_row_step := uint32 (Z.of_nat (length data));
     pc_data := data;
     pc_is_dense := pc_is_dense m |}.

(** Lines 170-176: fill in and publish the marker cloud message. *)
Definition publish_cloud (time : Time) (pointcloud : list Vector3f) : M unit :=
  m <~ get_msgPointCloud ;;
  set_msgPointCloud (fill_cloud time pointcloud m) ;;;
  m' <~ get_msgPointCloud ;;
  emit (PublishPointCloud m').

(** Line 188: a row of the matrix as a [pcl::PointXYZ]. *)
Definition marker_of_row (point : Vector3f) : PointXYZ :=
  {| px := vx point; py := vy point; pz := vz point |}.

(** Lines 184-190: rebuild [markers] and update the tracker. *)
Definition run_tracker (pointcloud : list Vector3f) : M unit :=
  set_markers [] ;;;
  forM (fun point => push_marker (marker_of_row point)) pointcloud ;;;
  ms <~ get_markers ;;
  tr <~ get_tracker ;;
  set_tracker (fst (tracker_update tr ms)) ;;;
  forM (fun msg => emit (LogWarn msg)) (snd (tracker_update tr ms)).

(** Lines 200-210: the transform of a pose reported by the backend. *)
Definition backend_transform (time : Time) (rigidBody : RigidBody)
  : TransformStamped :=
  {| ts_header := {| stamp := time; frame_id := "world" |};
     child_frame_id := rb_name rigidBody;
     transform :=
       {| tf_translation :=
            {| v3x := double_of_float (vx (rb_position rigidBody));
               v3y := double_of_float (vy (rb_position rigidBody));
               v3z := double_of_float (vz (rb_position rigidBody)) |};
          tf_rotation :=
            {| rx := double_of_float (qx (rb_rotation rigidBody));
               ry := double_of_float (qy (rb_rotation rigidBody));
               rz := double_of_float (qz (rb_rotation rigidBody));
               rw := double_of_float (qw (rb_rotation rigidBody)) |} |} |}.

(** Lines 192-211.  [transforms.reserve] changes no element. *)
Definition backend_poses (time : Time) : M unit :=
  set_transforms [] ;;;
  bodies <~ mocap_rigidBodies ;;
  forM (fun iter : string * RigidBody =>
          let rigidBody := snd iter in
          push_transform (backend_transform time rigidBody))
       (StringMap.elements bodies).

(** Lines 217-231: the transform of a pose estimated by the tracker. *)
Definition tracker_transform (time : Time) (rigidBody : Object)
  : TransformStamped :=
  let transform := transformation rigidBody in
  let q := rotation_quaternion transform in
  let translation := translation transform in
  {| ts_header := {| stamp := time; frame_id := "world" |};
     child_frame_id := name rigidBody;
     transform :=
       {| tf_translation :=
            {| v3x := double_of_float (vx translation);
               v3y := double_of_float (vy translation);
               v3z := double_of_float (vz translation) |};
          tf_rotation :=
            {| rx := double_of_float (qx q);
               ry := double_of_float (qy q);
               rz := double_of_float (qz q);
               rw := double_of_float (qw q) |} |} |}.

(** Lines 215-237: body of the loop over [tracker.objects()]. *)
Definition tracker_pose_body (chrono_now : time_point) (time : Time)
    (rigidBody : Object) : M unit :=
  if lastTransformationValid rigidBody then
    push_transform (tracker_transform time rigidBody)
  else
    let elapsedSeconds := elapsed_seconds chrono_now (lastValidTime rigidBody) in
    emit (WarnNoUpdatedPose (name rigidBody) elapsedSeconds).

(** Lines 213-238. *)
Definition tracker_poses (chrono_now : time_point) (time : Time) : M unit :=
  tr <~ get_tracker ;;
  forM (tracker_pose_body chrono_now time) (tracker_objects tr).

(** Lines 240-242. *)
Definition send_transforms : M unit :=
  ts <~ get_transforms ;;
  if 0 <? Z.of_nat (length ts) then emit (SendTransform ts) else ret tt.

(** One iteration of the loop (lines 163-244). *)
Definition cycle : M unit :=
  waitForNextFrame ;;;
  chrono_now <~ high_resolution_clock_now ;;
  time <~ node_now ;;
  pointcloud <~ mocap_pointCloud ;;
  publish_cloud time pointcloud ;;;
  run_tracker pointcloud ;;;
  backend_poses time ;;;
  tracker_poses chrono_now time ;;;
  send_transforms ;;;
  emit SpinSome.

(** [n] iterations: [rclcpp::ok()] holds [n] times. *)
Fixpoint run (n : nat) (w : World) : World :=
  match n with
  | O => w
  | S n' => exec cycle (run n' w)
  end.

(** Lines 69-87: the message as prepared before the loop. *)
Definition msgPointCloud_init : PointCloud2 :=
  {| pc_header := {| stamp := 0; frame_id := "world" |};
     pc_height := 1;
     pc_width := 0;
     pc_fields :=
       [ {| field_name := "x"; field_offset := 0;
            field_datatype := FLOAT32; field_count := 1 |};
         {| field_name := "y"; field_offset := 4;
            field_datatype := FLOAT32; field_count := 1 |};
         {| field_name := "z"; field_offset := 8;
            field_datatype := FLOAT32; field_count := 1 |} ];
     pc_is_bigendian := false;
     pc_point_step := 12;
     pc_row_step := 0;
     pc_data := [];
     pc_is_dense := true |}.

(** The state when the loop is entered (lines 148-158). *)
Definition init_world (cfg : Configuration) : World :=
  {| frames_waited := 0; wall_reads := 0; chrono_reads := 0;
     mocap := {| pointCloud := []; rigidBodies := StringMap.empty RigidBody |};
     tracker := tracker_new (cfg_dynamicsConfigurations cfg)
                            (cfg_markerConfigurations cfg) (cfg_objects cfg);
     msgPointCloud := msgPointCloud_init;
     transforms := [];
     markers := [];
     trace := [] |}.

(** [main]: an exception while the configuration is built terminates the
    process; otherwise the loop runs on the state built from it. *)
Definition main (parameter_overrides : overrides) (n : nat) : outcome World :=
  cfg <- build_configuration parameter_overrides ;;
  Ok (run n (init_world cfg)).

(** *** The quantities of the cycle that starts in state [w] *)

(** The frame delivered by its [waitForNextFrame()]. *)
Definition cycle_frame (w : World) : Frame := env_frame env (frames_waited w).

(** Its sample of [high_resolution_clock::now()]. *)
Definition cycle_chrono (w : World) : time_point := env_chrono env (chrono_reads w).

(** Its sample of [node->now()]. *)
Definition cycle_time (w : World) : Time := env_wall env (wall_reads w).

(** What [tracker.objects()] yields after its [tracker.update(markers)]. *)
Definition cycle_objects (w : World) : list Object :=
  tracker_objects
    (fst (tracker_update (tracker w)
            (map marker_of_row (pointCloud (cycle_frame w))))).

(** The transforms appended for the poses that the backend reports. *)
Definition backend_transforms (time : Time) (bodies : StringMap.t RigidBody)
  : list TransformStamped :=
  map (fun iter : string * RigidBody => backend_transform time (snd iter))
      (StringMap.elements bodies).

(** The transforms appended by the loop over [tracker.objects()]: one for
    each body with a valid fit, none for the others. *)
Definition tracked_transforms (time : Time) (objs : list Object)
  : list TransformStamped :=
  flat_map (fun o => if lastTransformationValid o
                     then [tracker_transform time o] else []) objs.

(** The warnings emitted by the same loop: one for each body without a
    valid fit. *)
Definition stale_warnings (chrono_now : time_point) (objs : list Object)
  : list Event :=
  flat_map (fun o => if lastTransformationValid o then []
                     else [WarnNoUpdatedPose (name o)
                             (elapsed_seconds chrono_now (lastValidTime o))])
           objs.

(** The events appended to the trace by the cycle that leads from [w] to
    [w']. *)
Definition cycle_events (w w' : World) : list Event :=
  skipn (length (trace w)) (trace w').

End FrameLoop.

Arguments World {TR}.
Arguments M {TR} A.

(** ** Child tokens, as functions on strings *)

(** The characters of [s] before its first ['.'] (all of [s] when it has
    none). *)
Fixpoint until_dot (s : string) : string :=
  match s with
  | EmptyString => EmptyString
  | String c s' => if Ascii.eqb c "."%char then EmptyString
                   else String c (until_dot s')
  end.

(** [tok] is the immediate child token of [key] under [prefix], as the
    specification words it: [key] begins with [prefix + "."] and [tok] is
    what follows, up to the next ['.'] or the end of the key. *)
Definition child_token_spec (prefix key tok : string) : Prop :=
  exists rest, key = (prefix ++ "." ++ rest)%string /\ tok = until_dot rest.

(** What [extract_names] takes as a token: [key] begins with [prefix], one
    more character of any kind follows, and [tok] is what comes after that
    character, up to the next ['.'] or the end of the key. *)
Definition child_token_code (prefix key tok : string) : Prop :=
  exists c rest, key = (prefix ++ String c rest)%string /\ tok = until_dot rest.

(** Strings as [std::string] can hold them. *)
Definition representable (s : string) : Prop := size s < npos.

(** ** Classifying the events of a cycle *)


Definition is_cloud (e : Event) : bool :=
  match e with PublishPointCloud _ => true | _ => false end.

Definition is_batch (e : Event) : bool :=
  match e with SendTransform _ => true | _ => false end.

(** The time stamps carried by the messages of an event. *)
Definition event_stamps (e : Event) : list Time :=
  match e with
  | PublishPointCloud m => [stamp (pc_header m)]
  | SendTransform batch => map (fun t => stamp (ts_header t)) batch
  | _ => []
  end.

(** ** Marker templates: the entries that the points loop takes *)


(** ** Dynamics profiles, as relations on the configuration *)

(** [c] is the profile read from the five keys of the dynamics
    configuration [name]. *)
Definition dynamics_profile_of (parameter_overrides : overrides) (name : string)
    (c : DynamicsConfiguration) : Prop :=
  let pre := ("dynamics_configurations." ++ name)%string in
  exists max_vel max_angular_velocity,
    read_vec parameter_overrides (pre ++ ".max_velocity")%string = Ok max_vel /\
    nth_error max_vel 0 = Some (maxXVelocity c) /\
    nth_error max_vel 1 = Some (maxYVelocity c) /\
    nth_error max_vel 2 = Some (maxZVelocity c) /\
    read_vec parameter_overrides (pre ++ ".max_angular_velocity")%string
      = Ok max_angular_velocity /\
    nth_error max_angular_velocity 0 = Some (maxRollRate c) /\
    nth_error max_angular_velocity 1 = Some (maxPitchRate c) /\
    nth_error max_angular_velocity 2 = Some (maxYawRate c) /\
    read_double parameter_overrides (pre ++ ".max_roll")%string = Ok (maxRoll c) /\
    read_double parameter_overrides (pre ++ ".max_pitch")%string = Ok (maxPitch c) /\
    read_double parameter_overrides (pre ++ ".max_fitness_score")%string
      = Ok (maxFitnessScore c).

(** The rigid body [o] names the dynamics profile that stands at its
    dynamics index in the list [names]. *)
Definition dynamics_resolved (parameter_overrides : overrides)
    (names : list string) (o : Object) : Prop :=
  exists d k,
    read_string parameter_overrides
                ("rigid_bodies." ++ name o ++ ".dynamics")%string = Ok d /\
    nth_error names k = Some d /\
    dynamicsConfigurationIdx o = Z.of_nat k.

(** ** Reading a built configuration *)

(** The names found under a prefix, in the order in which the loops of
    [main] visit them. *)
Definition names_under (parameter_overrides : overrides) (prefix : string)
  : outcome (list string) :=
  names <- extract_names parameter_overrides prefix ;;
  Ok (StringSet.elements names).

(** For each rigid body built: its name, its dynamics index and its marker
    index. *)
Definition built_indices (parameter_overrides : overrides)
  : outcome (list (string * Z * Z)) :=
  cfg <- build_configuration parameter_overrides ;;
  Ok (map (fun o => (name o, dynamicsConfigurationIdx o, markerConfigurationIdx o))
          (cfg_objects cfg)).

(** The sizes of the dynamics and marker collections built. *)
Definition built_sizes (parameter_overrides : overrides) : outcome (nat * nat) :=
  cfg <- build_configuration parameter_overrides ;;
  Ok (length (cfg_dynamicsConfigurations cfg),
      length (cfg_markerConfigurations cfg)).

(** ** Further vocabulary *)

(** The integer that a [double] is, when it is one. *)
Definition double_integer (d : double) : option Z :=
  match d with
  | S754_zero _ => Some 0
  | S754_finite s m e =>
      if 0 <=? e then Some (cond_Zopp s (Zpos m * 2 ^ e))
      else if Zpos m mod 2 ^ (- e) =? 0
           then Some (cond_Zopp s (Zpos m / 2 ^ (- e)))
           else None
  | _ => None
  end.

(** An outcome that is a value or an exception. *)
Definition defined {A : Type} (o : outcome A) : Prop := o <> Undefined.

(** [o] is the object built for the rigid body [nm]: it carries that name,
    and its initial transformation is the translation by the first three
    elements of [rigid_bodies.<nm>.initial_position]; the [marker] and
    [dynamics] keys of the body are strings. *)
Definition rigid_body_of (parameter_overrides : overrides) (nm : string)
    (o : Object) : Prop :=
  name o = nm /\
  (exists x y z rest,
     read_vec parameter_overrides
              ("rigid_bodies." ++ nm ++ ".initial_position")%string
       = Ok (x :: y :: z :: rest) /\
     initialTransformation o = Translation3f x y z) /\
  (exists marker dynamics,
     read_string parameter_overrides ("rigid_bodies." ++ nm ++ ".marker")%string
       = Ok marker /\
     read_string parameter_overrides ("rigid_bodies." ++ nm ++ ".dynamics")%string
       = Ok dynamics).

(** The rigid body [o] names a marker configuration of the set [names]. *)
Definition marker_named (parameter_overrides : overrides)
    (names : StringSet.t) (o : Object) : Prop :=
  exists m,
    read_string parameter_overrides
                ("rigid_bodies." ++ name o ++ ".marker")%string = Ok m /\
    StringSet.In m names.

(** Every array in the map has at least three elements. *)
Definition arrays_have_three (parameter_overrides : overrides) : Prop :=
  forall k v, StringMap.MapsTo k v parameter_overrides ->
    match v with
    | PARAMETER_INTEGER_ARRAY l => (3 <= length l)%nat
    | PARAMETER_DOUBLE_ARRAY l => (3 <= length l)%nat
    | _ => True
    end.

Definition is_spin (e : Event) : bool :=
  match e with SpinSome => true | _ => false end.

(** The stamps and the widths of the cloud messages of a trace, in order. *)
Definition cloud_stamps (evs : list Event) : list Time :=
  flat_map (fun e => match e with
                     | PublishPointCloud m => [stamp (pc_header m)]
                     | _ => []
                     end) evs.

Definition cloud_widths (evs : list Event) : list Z :=
  flat_map (fun e => match e with
                     | PublishPointCloud m => [pc_width m]
                     | _ => []
                     end) evs.

(** ** Marker templates: the declared points and their sums *)

(** The entries of the map whose key begins with [prefix], in key order. *)
Definition entries_under (parameter_overrides : overrides) (prefix : string)
  : list (string * ParameterValue) :=
  filter (fun param : string * ParameterValue => String.prefix prefix (fst param))
         (StringMap.elements parameter_overrides).

(** The array that a parameter value declares, as [double]s: a float array
    as it is, and an integer array element by element, each integer as the
    [double] nearest to it. *)
Definition declared_array_spec (pv : ParameterValue) : option (list double) :=
  match pv with
  | PARAMETER_DOUBLE_ARRAY l => Some l
  | PARAMETER_INTEGER_ARRAY l =>
      Some (map (fun z => binary_normalize 53 1024 z 0 false) l)
  | _ => None
  end.

(** Element [i] of the array that a parameter value declares, when that
    element is a whole number: any element of an integer array, and the
    elements of a float array that have no fractional part. *)
Definition declared_whole_spec (pv : ParameterValue) (i : nat) : option Z :=
  match pv with
  | PARAMETER_INTEGER_ARRAY l => nth_error l i
  | PARAMETER_DOUBLE_ARRAY l =>
      match nth_error l i with
      | Some d => double_integer d
      | None => None
      end
  | _ => None
  end.

(** Every element of an integer array lies in the range of [int]. *)
Definition within_int (pv : ParameterValue) : Prop :=
  match pv with
  | PARAMETER_INTEGER_ARRAY l => Forall (fun z => - 2 ^ 31 <= z < 2 ^ 31) l
  | _ => True
  end.

(** The [float] [stored] is element [i] of the declared [point] plus
    element [i] of the declared [offset]: it is the [double] sum of the two
    elements, rounded to [float]; and when the two elements are whole
    numbers whose sum has fewer than 24 bits, [stored] is that sum. *)
Definition coordinate_sum_spec (stored : float) (point offset : ParameterValue)
    (i : nat) : Prop :=
  (exists p o pi oi,
     declared_array_spec point = Some p /\ nth_error p i = Some pi /\
     declared_array_spec offset = Some o /\ nth_error o i = Some oi /\
     stored = float_of_double (SFadd 53 1024 pi oi)) /\
  (forall a b,
     declared_whole_spec point i = Some a ->
     declared_whole_spec offset i = Some b ->
     Z.abs (a + b) < 2 ^ 24 ->
     double_integer stored = Some (a + b)).

(** [stored] is the declared point plus the declared offset, coordinate by
    coordinate. *)
Definition point_plus_offset_spec (stored : PointXYZ)
    (point offset : ParameterValue) : Prop :=
  coordinate_sum_spec (px stored) point offset 0 /\
  coordinate_sum_spec (py stored) point offset 1 /\
  coordinate_sum_spec (pz stored) point offset 2.

(** [cloud] is the template of the marker configuration [name] as the
    specification words it: one stored point for each sub-key
    [points.<idx>] of the configuration, in key order, each the declared
    point plus the offset of the configuration. *)
Definition template_spec (parameter_overrides : overrides) (name : string)
    (cloud : MarkerConfiguration) : Prop :=
  exists offset,
    StringMap.find ("marker_configurations." ++ name ++ ".offset")%string
                   parameter_overrides = Some offset /\
    Forall2 (fun stored entry => point_plus_offset_spec stored (snd entry) offset)
            cloud
            (entries_under parameter_overrides
               ("marker_configurations." ++ name ++ ".points.")%string).

(** What [main] builds: one stored point for every key that begins with
    [marker_configurations.<name>.points], whether or not a dot follows, in
    key order; the stored point is the declared point plus the offset
    wherever the integers of the two arrays lie in the range of [int]. *)
Definition template_built (parameter_overrides : overrides) (name : string)
    (cloud : MarkerConfiguration) : Prop :=
  exists offset,
    StringMap.find ("marker_configurations." ++ name ++ ".offset")%string
                   parameter_overrides = Some offset /\
    Forall2 (fun stored entry =>
               within_int (snd entry) -> within_int offset ->
               point_plus_offset_spec stored (snd entry) offset)
            cloud
            (entries_under parameter_overrides
               ("marker_configurations." ++ name ++ ".points")%string).

(** ** Integers held by binary floats *)

(** The float of precision [prec] that holds the positive integer [n], with
    the sign [s], in normal form. *)
Definition canonical_int (prec : Z) (s : bool) (n : positive) : spec_float :=
  S754_finite s (Z.to_pos (Zpos n * 2 ^ (prec - Zpos (digits2_pos n))))
              (Zpos (digits2_pos n) - prec).

(** [v] is the integer [M * 2 ^ e]. *)
Definition is_scaled (M e v : Z) : Prop :=
  (0 <= e /\ v = M * 2 ^ e) \/ (e <= 0 /\ M = v * 2 ^ (- e)).

(** ** Example inputs *)

Module Examples.

(** A key that begins with the prefix ["rigid_bodies"] but not with
    ["rigid_bodies."]. *)
Definition loose_key_overrides : overrides :=
  map_of_list [ ("rigid_bodies_cf3.marker", PARAMETER_STRING "m1") ].

(** Keys of two rigid bodies and an unrelated key. *)
Definition two_bodies_overrides : overrides :=
  map_of_list
    [ ("rigid_bodies.cf1.marker", PARAMETER_STRING "m1");
      ("rigid_bodies.cf1.dynamics", PARAMETER_STRING "fast");
      ("rigid_bodies.cf2.marker", PARAMETER_STRING "m1");
      ("hostname", PARAMETER_STRING "localhost") ].

(** A key that is exactly the prefix. *)
Definition bare_prefix_overrides : overrides :=
  map_of_list
    [ ("rigid_bodies", PARAMETER_STRING "none");
      ("rigid_bodies.cf1.marker", PARAMETER_STRING "m1") ].

(** The five keys of a dynamics configuration. *)
Definition dynamics_keys (n : string) : list (string * ParameterValue) :=
  [ (("dynamics_configurations." ++ n ++ ".max_velocity")%string,
     PARAMETER_INTEGER_ARRAY [2; 2; 3]);
    (("dynamics_configurations." ++ n ++ ".max_angular_velocity")%string,
     PARAMETER_INTEGER_ARRAY [20; 20; 10]);
    (("dynamics_configurations." ++ n ++ ".max_roll")%string,
     PARAMETER_DOUBLE (double_of_int 1));
    (("dynamics_configurations." ++ n ++ ".max_pitch")%string,
     PARAMETER_DOUBLE (double_of_int 1));
    (("dynamics_configurations." ++ n ++ ".max_fitness_score")%string,
     PARAMETER_DOUBLE (double_of_int 1)) ].

(** Dynamics profiles "slow" and "fast", one marker configuration "m1" and
    the rigid body "cf1" that refers to "m1" and "fast". *)
Definition slow_fast_overrides : overrides :=
  map_of_list
    (dynamics_keys "slow" ++ dynamics_keys "fast" ++
     [ ("marker_configurations.m1.offset", PARAMETER_INTEGER_ARRAY [0; 0; 1]);
       ("marker_configurations.m1.points.0", PARAMETER_INTEGER_ARRAY [1; 0; 0]);
       ("rigid_bodies.cf1.initial_position", PARAMETER_INTEGER_ARRAY [0; 0; 0]);
       ("rigid_bodies.cf1.marker", PARAMETER_STRING "m1");
       ("rigid_bodies.cf1.dynamics", PARAMETER_STRING "fast") ])%list.

(** The same map with the keys inserted in another order. *)
Definition fast_slow_overrides : overrides :=
  map_of_list
    ([ ("rigid_bodies.cf1.dynamics", PARAMETER_STRING "fast");
       ("rigid_bodies.cf1.marker", PARAMETER_STRING "m1");
       ("rigid_bodies.cf1.initial_position", PARAMETER_INTEGER_ARRAY [0; 0; 0]);
       ("marker_configurations.m1.points.0", PARAMETER_INTEGER_ARRAY [1; 0; 0]);
       ("marker_configurations.m1.offset", PARAMETER_INTEGER_ARRAY [0; 0; 1]) ]
     ++ dynamics_keys "fast" ++ dynamics_keys "slow")%list.

(** A marker configuration alone: offset [0,0,1] and one point [1,0,0]. *)
Definition marker_overrides : overrides :=
  map_of_list
    [ ("marker_configurations.m.offset", PARAMETER_INTEGER_ARRAY [0; 0; 1]);
      ("marker_configurations.m.points.0", PARAMETER_INTEGER_ARRAY [1; 0; 0]) ].

(** A rigid body whose [initial_position] has two elements. *)
Definition short_position_overrides : overrides :=
  map_of_list
    (dynamics_keys "fast" ++
     [ ("marker_configurations.m1.offset", PARAMETER_INTEGER_ARRAY [0; 0; 1]);
       ("marker_configurations.m1.points.0", PARAMETER_INTEGER_ARRAY [1; 0; 0]);
       ("rigid_bodies.cf1.initial_position", PARAMETER_INTEGER_ARRAY [0; 0]);
       ("rigid_bodies.cf1.marker", PARAMETER_STRING "m1");
       ("rigid_bodies.cf1.dynamics", PARAMETER_STRING "fast") ])%list.

(** A marker configuration whose [offset] has two elements. *)
Definition short_offset_overrides : overrides :=
  map_of_list
    [ ("marker_configurations.m1.offset", PARAMETER_INTEGER_ARRAY [0; 0]);
      ("marker_configurations.m1.points.0", PARAMETER_INTEGER_ARRAY [1; 0; 0]) ].

(** A dynamics configuration whose [max_velocity] has two elements. *)
Definition short_velocity_overrides : overrides :=
  map_of_list
    [ ("dynamics_configurations.fast.max_velocity", PARAMETER_INTEGER_ARRAY [2; 2]) ].

(** A rigid body that refers to a dynamics profile that does not exist. *)
Definition unresolved_overrides : overrides :=
  map_of_list
    (dynamics_keys "fast" ++
     [ ("marker_configurations.m1.offset", PARAMETER_INTEGER_ARRAY [0; 0; 1]);
       ("rigid_bodies.cf1.initial_position", PARAMETER_INTEGER_ARRAY [0; 0; 0]);
       ("rigid_bodies.cf1.marker", PARAMETER_STRING "m1");
       ("rigid_bodies.cf1.dynamics", PARAMETER_STRING "quick") ])%list.

(** A tracker that fits nothing: [update] leaves every body as it was
    constructed and logs nothing. *)
Definition idle_tracker : ObjectTrackerOps :=
  {| ObjectTracker := list Object;
     tracker_new := fun _ _ objs => objs;
     tracker_update := fun tr _ => (tr, []);
     tracker_objects := fun tr => tr |}.

(** A tracker that reports every body at its initial pose, as fitted. *)
Definition still_tracker : ObjectTrackerOps :=
  {| ObjectTracker := list Object;
     tracker_new := fun _ _ objs => objs;
     tracker_update := fun tr _ =>
       (map (fun o => {| markerConfigurationIdx := markerConfigurationIdx o;
                         dynamicsConfigurationIdx := dynamicsConfigurationIdx o;
                         initialTransformation := initialTransformation o;
                         name := name o;
                         transformation := initialTransformation o;
                         lastTransformationValid := true;
                         lastValidTime := lastValidTime o |}) tr, []);
     tracker_objects := fun tr => tr |}.

(** Rotations read as the identity quaternion. *)
Definition identity_rotation : EigenOps :=
  {| rotation_quaternion := fun _ =>
       {| qx := float_zero; qy := float_zero; qz := float_zero; qw := float_one |} |}.

(** Every frame holds one marker at [(1,0,1)] and the backend pose of
    ["cf1"]; the clocks advance by one tick per reading. *)
Definition one_marker_env : Env :=
  {| env_frame := fun _ =>
       {| pointCloud := [ {| vx := float_one; vy := float_zero; vz := float_one |} ];
          rigidBodies :=
            map_of_list
              [ ("cf1",
                 {| rb_name := "cf1";
                    rb_position := {| vx := float_one; vy := float_zero;
                                      vz := float_one |};
                    rb_rotation := {| qx := float_zero; qy := float_zero;
                                      qz := float_zero; qw := float_one |} |}) ] |};
     env_wall := fun k => 1000 + Z.of_nat k;
     env_chrono := fun k => 5000000000 + Z.of_nat k |}.

(** No marker is captured and the backend reports no body. *)
Definition no_marker_env : Env :=
  {| env_frame := fun _ =>
       {| pointCloud := []; rigidBodies := StringMap.empty RigidBody |};
     env_wall := fun k => 1000 + Z.of_nat k;
     env_chrono := fun k => 5000000000 + Z.of_nat k |}.

Definition empty_configuration : Configuration :=
  {| cfg_dynamicsConfigurations := []; cfg_markerConfigurations := [];
     cfg_objects := [] |}.

(** The names under ["rigid_bodies"] in [two_bodies_overrides]. *)
Definition two_bodies_names : StringSet.t :=
  match extract_names two_bodies_overrides "rigid_bodies" with
  | Ok names => names
  | _ => StringSet.empty
  end.

(** The rigid body keys of [two_bodies_overrides] with other values, and
    another unrelated key. *)
Definition two_bodies_other_values : overrides :=
  map_of_list
    [ ("type", PARAMETER_STRING "optitrack");
      ("rigid_bodies.cf2.marker", PARAMETER_NOT_SET);
      ("rigid_bodies.cf1.dynamics", PARAMETER_INTEGER 3);
      ("rigid_bodies.cf1.marker", PARAMETER_BOOL true) ].

(** Only the two top-level parameters. *)
Definition top_level_overrides : overrides :=
  map_of_list
    [ ("type", PARAMETER_STRING "vicon");
      ("hostname", PARAMETER_STRING "localhost") ].

(** The configuration built from [slow_fast_overrides]. *)
Definition slow_fast_configuration : Configuration :=
  match build_configuration slow_fast_overrides with
  | Ok cfg => cfg
  | _ => empty_configuration
  end.


(** The marker configuration of [marker_overrides] with one more key, which
    begins with [marker_configurations.m.points] and is no sub-key of
    [points]. *)
Definition loose_points_overrides : overrides :=
  map_of_list
    [ ("marker_configurations.m.offset", PARAMETER_INTEGER_ARRAY [0; 0; 1]);
      ("marker_configurations.m.points.0", PARAMETER_INTEGER_ARRAY [1; 0; 0]);
      ("marker_configurations.m.pointsize", PARAMETER_INTEGER_ARRAY [9; 9; 9]) ].

(** A point whose first coordinate, 2^32, does not fit in an [int]. *)
Definition wide_point_overrides : overrides :=
  map_of_list
    [ ("marker_configurations.m.offset", PARAMETER_INTEGER_ARRAY [0; 0; 1]);
      ("marker_configurations.m.points.0",
       PARAMETER_INTEGER_ARRAY [4294967296; 0; 0]) ].

End Examples.

(** ** Facts about [std::string] operations *)

Lemma size_nonneg (s : string) : 0 <= size s.
Proof. unfold size; lia. Qed.

Lemma size_append (a b : string) : size (a ++ b)%string = size a + size b.
Proof.
  unfold size. rewrite <- Nat2Z.inj_add. f_equal.
  induction a as [|c a IH]; simpl; [reflexivity | now rewrite IH].
Qed.

Lemma prefix_split (p s : string) :
  String.prefix p s = true -> exists r, s = (p ++ r)%string.
Proof.
  revert s. induction p as [|c p IH]; intros s H; simpl in *.
  - exists s. reflexivity.
  - destruct s as [|d s]; simpl in H; [discriminate|].
    destruct (ascii_dec c d) as [->|]; [|discriminate].
    destruct (IH s H) as [r ->]. exists r. reflexivity.
Qed.

Lemma prefix_append (p r : string) : String.prefix p (p ++ r)%string = true.
Proof.
  induction p as [|c p IH]; simpl.
  - destruct r; reflexivity.
  - destruct (ascii_dec c c); [exact IH | congruence].
Qed.

Lemma index_0_cons (p : string) (d : ascii) (s : string) :
  String.index 0 p (String d s) =
  if String.prefix p (String d s) then Some 0%nat
  else option_map S (String.index 0 p s).
Proof.
  cbn [String.index]. destruct (String.prefix p (String d s)); [reflexivity|].
  destruct (String.index 0 p s); reflexivity.
Qed.

Lemma index_0_prefix (p s : string) :
  String.index 0 p s = Some 0%nat <-> String.prefix p s = true.
Proof.
  destruct s as [|d s].
  - destruct p; simpl; split; congruence.
  - rewrite index_0_cons. destruct (String.prefix p (String d s)).
    + split; reflexivity.
    + destruct (String.index 0 p s); simpl; split; congruence.
Qed.

Lemma prefix_dot_cons (c : ascii) (s : string) :
  String.prefix "." (String c s) = Ascii.eqb c "."%char.
Proof.
  cbn [String.prefix]. destruct (ascii_dec "." c) as [<-|Hne].
  - destruct s; reflexivity.
  - destruct (Ascii.eqb_spec c "."%char); congruence.
Qed.

(** The test [i.first.find(pattern) == 0] holds exactly for the keys that
    begin with [pattern]. *)
Lemma find_0_prefix (s p : string) :
  (find s p 0 =? 0) = true <-> exists r, s = (p ++ r)%string.
Proof.
  unfold find. pose proof (size_nonneg s).
  destruct (size s <? 0) eqn:E; [apply Z.ltb_lt in E; lia|].
  change (Z.to_nat 0) with 0%nat.
  rewrite Z.eqb_eq. split.
  - intros Hf. apply prefix_split. apply index_0_prefix.
    destruct (String.index 0 p s) as [n|]; [|discriminate].
    f_equal. lia.
  - intros [r ->]. rewrite (proj2 (index_0_prefix p (p ++ r)) (prefix_append p r)).
    reflexivity.
Qed.

Lemma index_dot_cons (n : nat) (c : ascii) (s : string) :
  String.index (S n) "." (String c s) =
  option_map S (String.index n "." s).
Proof. simpl. destruct (String.index n "." s); reflexivity. Qed.

Lemma index_dot_append (p s : string) (n : nat) :
  String.index (String.length p + n) "." (p ++ s)%string =
  option_map (fun k => (String.length p + k)%nat) (String.index n "." s).
Proof.
  induction p as [|c p IH].
  - simpl. destruct (String.index n "." s); reflexivity.
  - change (String.length (String c p) + n)%nat with (S (String.length p + n)).
    change (String c p ++ s)%string with (String c (p ++ s)).
    rewrite index_dot_cons, IH.
    destruct (String.index n "." s); reflexivity.
Qed.

Lemma substring_append (p s : string) (n m : nat) :
  String.substring (String.length p + n) m (p ++ s)%string = String.substring n m s.
Proof. induction p as [|c p IH]; simpl; [reflexivity | exact IH]. Qed.

Lemma substring_all (s : string) : String.substring 0 (String.length s) s = s.
Proof. induction s as [|c s IH]; simpl; [reflexivity | now rewrite IH]. Qed.

Lemma index_dot_none (s : string) :
  String.index 0 "." s = None -> until_dot s = s.
Proof.
  induction s as [|c s IH]; [reflexivity|].
  rewrite index_0_cons, prefix_dot_cons. cbn [until_dot].
  destruct (Ascii.eqb c "."%char); [discriminate|].
  destruct (String.index 0 "." s); [discriminate|]. intros _. now rewrite IH.
Qed.

Lemma index_dot_some (s : string) (n : nat) :
  String.index 0 "." s = Some n ->
  until_dot s = String.substring 0 n s /\ (n < String.length s)%nat.
Proof.
  revert n. induction s as [|c s IH]; intros n; [discriminate|].
  rewrite index_0_cons, prefix_dot_cons. cbn [until_dot String.length].
  destruct (Ascii.eqb c "."%char).
  - intros [= <-]. split; [reflexivity | lia].
  - destruct (String.index 0 "." s) as [k|]; [|discriminate].
    intros [= <-]. destruct (IH k eq_refl) as [-> Hk].
    split; [reflexivity | lia].
Qed.

Lemma size_t_small (z : Z) : 0 <= z <= npos -> size_t z = z.
Proof. unfold size_t, npos. intros H. apply Z.mod_small. lia. Qed.

(** The token computed by lines 30-32 on a key that continues past the
    pattern. *)
Lemma substr_child_token (p : string) (c : ascii) (rest : string) :
  representable p ->
  representable (p ++ String c rest) ->
  let key := (p ++ String c rest)%string in
  let start := size_t (size p + 1) in
  substr key start (size_t (find key "." start - start)) = Ok (until_dot rest).
Proof.
  intros Hp Hk key start. unfold representable in Hp, Hk.
  pose proof (size_nonneg p) as Hp0. pose proof (size_nonneg rest) as Hr0.
  assert (Hsize : size key = size p + 1 + size rest).
  { unfold key. rewrite size_append. unfold size. cbn [String.length].
    rewrite Nat2Z.inj_succ. lia. }
  assert (Hstart : start = size p + 1) by (apply size_t_small; lia).
  assert (Hnat : Z.to_nat start = (String.length p + 1)%nat).
  { rewrite Hstart. unfold size. lia. }
  fold key in Hk. unfold substr, find.
  destruct (size key <? start) eqn:E; [apply Z.ltb_lt in E; lia|].
  rewrite Hnat. unfold key at 1 3.
  rewrite index_dot_append, substring_append, index_dot_cons.
  change (String.substring 1 ?m (String c rest)) with (String.substring 0 m rest).
  destruct (String.index 0 "." rest) as [n|] eqn:En; cbn [option_map].
  - destruct (index_dot_some rest n En) as [-> Hn].
    do 2 f_equal. unfold size in *.
    replace (Z.of_nat (String.length p + S n) - start) with (Z.of_nat n) by lia.
    rewrite size_t_small by lia. lia.
  - rewrite (index_dot_none rest En).
    rewrite size_t_small by lia.
    replace (Z.to_nat (Z.min (npos - start) (size key - start)))
      with (String.length rest) by (unfold size in *; lia).
    now rewrite substring_all.
Qed.

(** ** [extract_names]: one entry *)

Lemma extract_names_body_other (p : string) (acc : StringSet.t)
    (key : string) (v : ParameterValue) :
  (forall r, key <> (p ++ r)%string) ->
  extract_names_body p acc (key, v) = Ok acc.
Proof.
  intros H. unfold extract_names_body. cbn [fst].
  destruct (find key p 0 =? 0) eqn:E; [|reflexivity].
  apply find_0_prefix in E. destruct E as [r ->]. now destruct (H r).
Qed.

Lemma append_inj (p a b : string) : (p ++ a)%string = (p ++ b)%string -> a = b.
Proof.
  induction p as [|c p IH]; simpl; intros H; [exact H|].
  injection H as H. now apply IH.
Qed.

Lemma append_empty (p : string) : (p ++ "")%string = p.
Proof. induction p as [|c p IH]; simpl; [reflexivity | now rewrite IH]. Qed.

Lemma extract_names_body_exact (p : string) (acc : StringSet.t)
    (v : ParameterValue) :
  representable p ->
  size p < size_t (size p + 1) /\
  extract_names_body p acc (p, v) = Throw out_of_range.
Proof.
  unfold representable. intros Hp. pose proof (size_nonneg p) as Hp0.
  assert (Hstart : size_t (size p + 1) = size p + 1) by (apply size_t_small; lia).
  split; [lia|].
  unfold extract_names_body. cbn [fst].
  rewrite (proj2 (find_0_prefix p p)) by (exists ""%string; now rewrite append_empty).
  unfold substr. rewrite Hstart.
  destruct (size p <? size p + 1) eqn:E; [reflexivity | apply Z.ltb_ge in E; lia].
Qed.

Lemma extract_names_body_child (p : string) (acc : StringSet.t)
    (c : ascii) (rest : string) (v : ParameterValue) :
  representable p ->
  representable (p ++ String c rest) ->
  extract_names_body p acc ((p ++ String c rest)%string, v) =
  Ok (StringSet.add (until_dot rest) acc).
Proof.
  intros Hp Hk. unfold extract_names_body. cbn [fst].
  rewrite (proj2 (find_0_prefix _ p)) by (now exists (String c rest)).
  pose proof (substr_child_token p c rest Hp Hk) as H. cbv zeta in H.
  rewrite H. reflexivity.
Qed.

(** The body never runs into undefined behaviour, and the only exception
    it can raise is [std::out_of_range]. *)
Lemma extract_names_body_outcome (p : string) (acc : StringSet.t)
    (i : string * ParameterValue) :
  (exists s, extract_names_body p acc i = Ok s) \/
  extract_names_body p acc i = Throw out_of_range.
Proof.
  unfold extract_names_body, substr.
  destruct (find (fst i) p 0 =? 0); [|left; eauto].
  destruct (size (fst i) <? size_t (size p + 1)); [right; reflexivity|].
  left. cbn. eauto.
Qed.

(** ** [extract_names]: the loop *)

Lemma extract_names_from_throw (p : string) (v : ParameterValue)
    (l : list (string * ParameterValue)) :
  representable p ->
  In (p, v) l ->
  forall acc, for_each (extract_names_body p) l acc = Throw out_of_range.
Proof.
  intros Hp. induction l as [|a l IH]; intros Hin acc; [contradiction|].
  cbn [for_each]. destruct Hin as [->|Hin].
  - destruct (extract_names_body_exact p acc v Hp) as [_ ->]. reflexivity.
  - destruct (extract_names_body_outcome p acc a) as [[s ->]| ->].
    + cbn [bind]. now apply IH.
    + reflexivity.
Qed.

Lemma extract_names_from_ok (p : string) (l : list (string * ParameterValue)) :
  representable p ->
  (forall k v, In (k, v) l -> representable k /\ k <> p) ->
  forall acc, exists s,
    for_each (extract_names_body p) l acc = Ok s /\
    forall tok, StringSet.In tok s <->
      StringSet.In tok acc \/
      exists k v, In (k, v) l /\ child_token_code p k tok.
Proof.
  intros Hp. induction l as [|[k v] l IH]; intros Hl acc.
  - exists acc. split; [reflexivity|]. intros tok. split; [auto|].
    intros [H|(k & v & [] & _)]. exact H.
  - assert (Hl' : forall k v, In (k, v) l -> representable k /\ k <> p)
      by (intros k' v' H; apply (Hl k' v'); now right).
    destruct (Hl k v (or_introl eq_refl)) as [Hk Hne].
    cbn [for_each].
    destruct (String.prefix p k) eqn:E.
    + destruct (prefix_split p k E) as [r ->].
      destruct r as [|c rest]; [now rewrite append_empty in Hne|].
      rewrite (extract_names_body_child p acc c rest v Hp Hk). cbn [bind].
      destruct (IH Hl' (StringSet.add (until_dot rest) acc)) as (s & -> & Hs).
      exists s. split; [reflexivity|]. intros tok. rewrite Hs, StringSet.add_spec.
      split.
      * intros [[->|H]|(k' & v' & Hin & Hc)].
        -- right. exists (p ++ String c rest)%string, v. split; [now left|].
           now exists c, rest.
        -- now left.
        -- right. exists k', v'. split; [now right | exact Hc].
      * intros [H|(k' & v' & [Heq|Hin] & Hc)].
        -- left. now right.
        -- injection Heq as <- <-. destruct Hc as (c' & rest' & Hkey & ->).
           apply append_inj in Hkey.
           injection Hkey as <- <-. left. now left.
        -- right. exists k', v'. now split.
    + rewrite extract_names_body_other.
      2:{ intros r ->. now rewrite prefix_append in E. }
      cbn [bind]. destruct (IH Hl' acc) as (s & -> & Hs).
      exists s. split; [reflexivity|]. intros tok. rewrite Hs. split.
      * intros [H|(k' & v' & Hin & Hc)]; [now left|].
        right. exists k', v'. split; [now right | exact Hc].
      * intros [H|(k' & v' & [Heq|Hin] & Hc)]; [now left| |].
        -- injection Heq as <- <-. destruct Hc as (c' & rest' & -> & _).
           now rewrite prefix_append in E.
        -- right. exists k', v'. now split.
Qed.

(** ** Maps and their iteration *)

Lemma elements_In {V : Type} (m : StringMap.t V) (k : string) (v : V) :
  In (k, v) (StringMap.elements m) <-> StringMap.MapsTo k v m.
Proof.
  rewrite StringMapFacts.elements_mapsto_iff, InA_alt. split.
  - intros H. exists (k, v). split; [|exact H]. split; reflexivity.
  - intros ([k' v'] & [Hk Hv] & Hin). cbn in Hk, Hv. now subst.
Qed.

Lemma at_Ok {V : Type} (m : StringMap.t V) (k : string) (v : V) :
  at_ m k = Ok v <-> StringMap.MapsTo k v m.
Proof.
  unfold at_. rewrite StringMapFacts.find_mapsto_iff.
  destruct (StringMap.find k m); split; congruence.
Qed.

Lemma at_missing {V : Type} (m : StringMap.t V) (k : string) :
  ~ StringMap.In k m -> at_ m k = Throw out_of_range.
Proof.
  unfold at_. intros H. apply StringMapFacts.not_find_in_iff in H. now rewrite H.
Qed.

(** ** [extract_names]: specified properties *)

(** C9: when a key of the override map is exactly the pattern, the token
    start index [pattern.size() + 1] lies past the end of that key, and
    [extract_names] does not return a set: [substr] raises
    [std::out_of_range] on that key instead of the key being skipped. *)
Theorem extract_names_key_equal_pattern
    (parameter_overrides : overrides) (pattern : string) (v : ParameterValue) :
  representable pattern ->
  StringMap.MapsTo pattern v parameter_overrides ->
  size pattern < size_t (size pattern + 1) /\
  extract_names parameter_overrides pattern = Throw out_of_range.
Proof.
  intros Hp Hin. split.
  - exact (proj1 (extract_names_body_exact pattern StringSet.empty v Hp)).
  - unfold extract_names, extract_names_from.
    apply (extract_names_from_throw pattern v); [exact Hp|].
    now apply elements_In.
Qed.

Lemma extract_names_key_equal_pattern_witness :
  size "rigid_bodies" < size_t (size "rigid_bodies" + 1) /\
  extract_names Examples.bare_prefix_overrides "rigid_bodies" = Throw out_of_range.
Proof.
  apply (extract_names_key_equal_pattern Examples.bare_prefix_overrides
           "rigid_bodies" (PARAMETER_STRING "none")).
  - reflexivity.
  - apply StringMap.find_2. reflexivity.
Defined.

(** C2, as the code has it: for a pattern and an override map none of whose
    keys is the pattern itself, [extract_names] returns exactly the set of
    tokens that follow the pattern and one further character (which is
    skipped, whether or not it is a dot) in the keys beginning with the
    pattern, each token running to the next dot or the end of the key; keys
    that do not begin with the pattern contribute nothing; and visiting the
    entries in any other order gives the same set. *)
Theorem extract_names_tokens
    (parameter_overrides : overrides) (pattern : string) :
  representable pattern ->
  (forall k, StringMap.In k parameter_overrides ->
             representable k /\ k <> pattern) ->
  exists names,
    extract_names parameter_overrides pattern = Ok names /\
    (forall tok, StringSet.In tok names <->
       exists k v, StringMap.MapsTo k v parameter_overrides /\
                   child_token_code pattern k tok) /\
    (forall entries,
       Permutation entries (StringMap.elements parameter_overrides) ->
       extract_names_from entries pattern = Ok names).
Proof.
  intros Hp Hkeys.
  assert (Hl : forall k v, In (k, v) (StringMap.elements parameter_overrides) ->
                           representable k /\ k <> pattern).
  { intros k v H. apply Hkeys. exists v. now apply elements_In. }
  destruct (extract_names_from_ok pattern _ Hp Hl StringSet.empty)
    as (names & Hnames & Hspec).
  assert (Hmem : forall (l : list (string * ParameterValue)) s,
            (forall tok, StringSet.In tok s <->
               StringSet.In tok StringSet.empty \/
               exists k v, In (k, v) l /\ child_token_code pattern k tok) ->
            forall tok, StringSet.In tok s <->
               exists k v, In (k, v) l /\ child_token_code pattern k tok).
  { intros l s H tok. rewrite H. split; [|auto].
    intros [Hempty|Hex]; [|exact Hex].
    now apply StringSet.empty_spec in Hempty. }
  exists names. split; [exact Hnames|]. split.
  - intros tok. rewrite (Hmem _ _ Hspec). split.
    + intros (k & v & Hin & Hc). exists k, v. split; [now apply elements_In | exact Hc].
    + intros (k & v & Hin & Hc). exists k, v. split; [now apply elements_In | exact Hc].
  - intros entries Hperm.
    assert (Hl' : forall k v, In (k, v) entries -> representable k /\ k <> pattern).
    { intros k v H. apply (Hl k v). now apply (Permutation_in _ Hperm). }
    destruct (extract_names_from_ok pattern _ Hp Hl' StringSet.empty)
      as (names' & Hnames' & Hspec').
    unfold extract_names_from. rewrite Hnames'. f_equal.
    apply StringSet.eq_leibniz. intros tok.
    rewrite (Hmem _ _ Hspec), (Hmem _ _ Hspec'). split.
    + intros (k & v & Hin & Hc). exists k, v. split; [|exact Hc].
      now apply (Permutation_in _ Hperm).
    + intros (k & v & Hin & Hc). exists k, v. split; [|exact Hc].
      now apply (Permutation_in _ (Permutation_sym Hperm)).
Qed.

(** On a map whose keys, when they begin with the pattern, go on with a
    dot, the tokens are the immediate child tokens in the sense of the
    specification. *)
Lemma extract_names_dotted
    (parameter_overrides : overrides) (pattern : string) :
  representable pattern ->
  (forall k, StringMap.In k parameter_overrides -> representable k) ->
  (forall k r, StringMap.In k parameter_overrides -> k = (pattern ++ r)%string ->
               exists rest, r = String "."%char rest) ->
  exists names,
    extract_names parameter_overrides pattern = Ok names /\
    forall tok, StringSet.In tok names <->
      exists k v, StringMap.MapsTo k v parameter_overrides /\
                  child_token_spec pattern k tok.
Proof.
  intros Hp Hrep Hdot.
  assert (Hl : forall k v, In (k, v) (StringMap.elements parameter_overrides) ->
                           representable k /\ k <> pattern).
  { intros k v H. apply elements_In in H.
    assert (Hin : StringMap.In k parameter_overrides) by now exists v.
    split; [now apply Hrep|]. intros ->.
    destruct (Hdot pattern ""%string Hin) as [rest Hrest];
      [now rewrite append_empty | discriminate]. }
  destruct (extract_names_from_ok pattern _ Hp Hl StringSet.empty)
    as (names & Hnames & Hspec).
  exists names. split; [exact Hnames|].
  intros tok. rewrite Hspec. split.
  - intros [Hempty | (k & v & Hin & c & rest & -> & ->)].
    + now apply StringSet.empty_spec in Hempty.
    + apply elements_In in Hin.
      destruct (Hdot _ (String c rest) (ex_intro _ v Hin) eq_refl) as [rest' Hc].
      injection Hc as -> <-.
      exists (pattern ++ String "."%char rest)%string, v.
      split; [exact Hin|]. now exists rest.
  - intros (k & v & Hin & rest & -> & ->). right.
    exists (pattern ++ "." ++ rest)%string, v.
    split; [now apply elements_In|]. now exists "."%char, rest.
Qed.

Lemma extract_names_tokens_witness :
  exists names,
    extract_names Examples.two_bodies_overrides "rigid_bodies" = Ok names /\
    (forall tok, StringSet.In tok names <->
       exists k v, StringMap.MapsTo k v Examples.two_bodies_overrides /\
                   child_token_code "rigid_bodies" k tok) /\
    (forall entries,
       Permutation entries (StringMap.elements Examples.two_bodies_overrides) ->
       extract_names_from entries "rigid_bodies" = Ok names).
Proof.
  apply (extract_names_tokens Examples.two_bodies_overrides "rigid_bodies").
  - reflexivity.
  - intros k [v Hin]. apply elements_In in Hin. vm_compute in Hin.
    repeat (destruct Hin as [Hin|Hin];
            [injection Hin as <- <-; split; [reflexivity | discriminate]|]).
    destruct Hin.
Defined.

(** C2 as stated fails: with the single key ["rigid_bodies_cf3.marker"] and
    the prefix ["rigid_bodies"], the returned set contains ["cf3"], which is
    not the child token of any key beginning with ["rigid_bodies."]. *)
Lemma extract_names_loose_key :
  exists names,
    extract_names Examples.loose_key_overrides "rigid_bodies" = Ok names /\
    StringSet.In "cf3" names /\
    ~ (exists k v, StringMap.MapsTo k v Examples.loose_key_overrides /\
                   child_token_spec "rigid_bodies" k "cf3").
Proof.
  eexists. split; [vm_compute; reflexivity|]. split.
  - apply StringSet.mem_spec. reflexivity.
  - intros (k & v & Hin & rest & Hk & _).
    apply elements_In in Hin. vm_compute in Hin.
    destruct Hin as [Hin|[]]. injection Hin as <- <-.
    discriminate Hk.
Qed.

(** ** [get_vec] *)

Lemma get_vec_integer_array_length (l : list Z) :
  exists r, get_vec (PARAMETER_INTEGER_ARRAY l) = Ok r /\ length r = length l.
Proof. eexists. split; [reflexivity | apply length_map]. Qed.

Lemma get_vec_double_array (l : list double) :
  get_vec (PARAMETER_DOUBLE_ARRAY l) = Ok l.
Proof. reflexivity. Qed.

Lemma int_of_int64_small (v : Z) :
  - 2 ^ 31 <= v < 2 ^ 31 -> int_of_int64 v = v.
Proof. intros H. unfold int_of_int64. rewrite Z.mod_small; lia. Qed.

(** Elements that fit in an [int] are converted as they are. *)
Lemma get_vec_integer_array_small (l : list Z) :
  Forall (fun v => - 2 ^ 31 <= v < 2 ^ 31) l ->
  get_vec (PARAMETER_INTEGER_ARRAY l) = Ok (map double_of_int l).
Proof.
  intros H. cbn [get_vec]. f_equal. apply map_ext_in. intros v Hv.
  rewrite int_of_int64_small; [reflexivity|].
  rewrite Forall_forall in H. now apply H.
Qed.

(** C3 at the integer array [[4294967296]]: the loop variable of [get_vec]
    is an [int], so the element is narrowed to 32 bits before it is
    converted; the result has one element, [0.0], and not the input value
    [4294967296.0]. *)
Theorem get_vec_narrows_int64 :
  get_vec (PARAMETER_INTEGER_ARRAY [4294967296]) = Ok [double_of_int 0] /\
  double_of_int 0 <> double_of_int 4294967296.
Proof. split; [reflexivity | discriminate]. Qed.

(** ** Configuration building: inverting the steps of a loop body *)

Lemma bind_Ok {A B : Type} (m : outcome A) (k : A -> outcome B) (b : B) :
  bind m k = Ok b -> exists a, m = Ok a /\ k a = Ok b.
Proof. destruct m; cbn; intros H; [eauto | discriminate | discriminate]. Qed.

Ltac bind_inv H :=
  let a := fresh "a" in
  let E := fresh "E" in
  apply bind_Ok in H; destruct H as (a & E & H).

Tactic Notation "bind_named" hyp(H) "as" ident(a) ident(E) :=
  apply bind_Ok in H; destruct H as (a & E & H).

Lemma vec_index_Ok {A : Type} (v : list A) (n : nat) (a : A) :
  vec_index v n = Ok a -> nth_error v n = Some a.
Proof. unfold vec_index. destruct (nth_error v n); congruence. Qed.

Lemma vec_at_Ok {A : Type} (v : list A) (n : nat) (a : A) :
  vec_at v n = Ok a -> nth_error v n = Some a.
Proof. unfold vec_at. destruct (nth_error v n); congruence. Qed.

(** ** Configuration building: what the indices are in general *)

Lemma size_t_range (z : Z) : 0 <= size_t z < 2 ^ 64.
Proof. unfold size_t. apply Z.mod_pos_bound. lia. Qed.

Lemma size_t_succ (i k : Z) : size_t (size_t (i + 1) + k) = size_t (i + (1 + k)).
Proof.
  unfold size_t. rewrite Zplus_mod_idemp_l. f_equal. lia.
Qed.

(** The dynamics loop increments the counter once per name. *)
Lemma dynamics_loop_counter (parameter_overrides : overrides) (names : list string) :
  forall st st',
    for_each (dynamics_body parameter_overrides) names st = Ok st' ->
    size_t (dyn_i st') = size_t (dyn_i st + Z.of_nat (length names)).
Proof.
  induction names as [|name names IH]; intros st st' H; cbn [for_each] in H.
  - injection H as <-. cbn [length]. f_equal. lia.
  - bind_inv H. rewrite (IH _ _ H).
    unfold dynamics_body in E.
    repeat (bind_inv E). injection E as <-. cbn [dyn_i length].
    rewrite size_t_succ. f_equal. lia.
Qed.

Lemma dynamics_loop_counter_range (parameter_overrides : overrides)
    (names : list string) :
  forall st st',
    for_each (dynamics_body parameter_overrides) names st = Ok st' ->
    0 <= dyn_i st < 2 ^ 64 -> 0 <= dyn_i st' < 2 ^ 64.
Proof.
  induction names as [|name names IH]; intros st st' H Hr; cbn [for_each] in H.
  - now injection H as <-.
  - bind_inv H. apply (IH _ _ H).
    unfold dynamics_body in E.
    repeat (bind_inv E). injection E as <-. cbn [dyn_i]. apply size_t_range.
Qed.

(** The marker loop stores the same number under every name. *)
Lemma marker_loop_index (parameter_overrides : overrides) (i : Z)
    (names : list string) :
  forall st st',
    for_each (marker_body parameter_overrides i) names st = Ok st' ->
    forall k v, StringMap.MapsTo k v (marker_name_to_index st') ->
                StringMap.MapsTo k v (marker_name_to_index st) \/ v = i.
Proof.
  induction names as [|name names IH]; intros st st' H k v Hk; cbn [for_each] in H.
  - injection H as <-. now left.
  - bind_inv H. destruct (IH _ _ H k v Hk) as [Hin | ->]; [|now right].
    unfold marker_body in E. repeat (bind_inv E). injection E as <-.
    cbn [marker_name_to_index] in Hin.
    apply StringMapFacts.add_mapsto_iff in Hin.
    destruct Hin as [[_ <-] | [_ Hin]]; [now right | now left].
Qed.

Lemma rigid_body_loop_marker_index (parameter_overrides : overrides)
    (marker_map dynamics_map : StringMap.t Z) (i : Z) (names : list string) :
  (forall k v, StringMap.MapsTo k v marker_map -> v = i) ->
  forall objects objects',
    for_each (rigid_body_body parameter_overrides marker_map dynamics_map)
             names objects = Ok objects' ->
    Forall (fun o => markerConfigurationIdx o = i) objects ->
    Forall (fun o => markerConfigurationIdx o = i) objects'.
Proof.
  intros Hmap. induction names as [|name names IH];
    intros objects objects' H Hobjs; cbn [for_each] in H.
  - now injection H as <-.
  - bind_inv H. apply (IH _ _ H).
    unfold rigid_body_body in E.
    bind_named E as pos Hpos. bind_named E as x Hx. bind_named E as y Hy.
    bind_named E as z Hz. bind_named E as marker Hmarker.
    bind_named E as dynamics Hdynamics.
    bind_named E as mi Hmi. bind_named E as di Hdi.
    injection E as <-.
    apply Forall_app. split; [exact Hobjs|]. constructor; [|constructor].
    cbn [markerConfigurationIdx Object_new].
    apply (Hmap marker). now apply at_Ok.
Qed.

(** In every configuration that is built, the marker index of every rigid
    body is the number of dynamics configurations, whatever marker
    configuration the body names. *)
Lemma marker_index_is_dynamics_count
    (parameter_overrides : overrides) (cfg : Configuration) :
  build_configuration parameter_overrides = Ok cfg ->
  exists dynamics_names,
    extract_names parameter_overrides "dynamics_configurations" = Ok dynamics_names /\
    Forall (fun o => markerConfigurationIdx o =
                     size_t (Z.of_nat (StringSet.cardinal dynamics_names)))
           (cfg_objects cfg).
Proof.
  intros H. unfold build_configuration in H.
  bind_named H as dynamics_names Hdn. bind_named H as dyn Hdyn.
  bind_named H as marker_names Hmn. bind_named H as mk Hmk.
  bind_named H as body_names Hbn. bind_named H as objects Hobjs.
  injection H as <-. cbn [cfg_objects].
  exists dynamics_names. split; [exact Hdn|].
  assert (Hi : dyn_i dyn =
               size_t (Z.of_nat (StringSet.cardinal dynamics_names))).
  { pose proof (dynamics_loop_counter _ _ _ _ Hdyn) as Hc.
    pose proof (dynamics_loop_counter_range _ _ _ _ Hdyn) as Hr.
    cbn [dyn_i] in Hc, Hr. rewrite StringSet.cardinal_spec.
    rewrite Z.add_0_l in Hc.
    transitivity (size_t (dyn_i dyn)).
    - symmetry. apply Z.mod_small. apply Hr. lia.
    - exact Hc. }
  rewrite <- Hi.
  refine (rigid_body_loop_marker_index _ _ _ (dyn_i dyn) _ _ _ _ Hobjs _);
    [|constructor].
  intros k v Hk.
  destruct (marker_loop_index _ _ _ _ _ Hmk k v Hk) as [Hin | ->]; [|reflexivity].
  cbn [marker_name_to_index] in Hin.
  now apply StringMapFacts.empty_mapsto_iff in Hin.
Qed.

Lemma vec_store_Ok {A : Type} (v : list A) (i : Z) (a : A) (v' : list A) :
  vec_store v i a = Ok v' ->
  0 <= i < Z.of_nat (length v) /\
  v' = (firstn (Z.to_nat i) v ++ a :: skipn (S (Z.to_nat i)) v)%list.
Proof.
  unfold vec_store.
  destruct (0 <=? i) eqn:E1; destruct (i <? Z.of_nat (length v)) eqn:E2;
    cbn; intros H; try discriminate.
  injection H as <-. apply Z.leb_le in E1. apply Z.ltb_lt in E2. now split.
Qed.

Lemma stored_firstn {A : Type} (v : list A) (i : nat) (a : A) :
  (i < length v)%nat ->
  firstn (S i) (firstn i v ++ a :: skipn (S i) v) = (firstn i v ++ [a])%list.
Proof.
  intros H.
  rewrite firstn_app, length_firstn.
  replace (S i - Nat.min i (length v))%nat with 1%nat by lia.
  rewrite firstn_firstn. replace (Nat.min (S i) i) with i by lia.
  reflexivity.
Qed.

Lemma stored_skipn {A : Type} (v : list A) (i m : nat) (a : A) :
  (i < length v)%nat ->
  skipn (S i + m) (firstn i v ++ a :: skipn (S i) v) = skipn (S i + m) v.
Proof.
  intros H.
  rewrite skipn_app, length_firstn.
  replace (S i + m - Nat.min i (length v))%nat with (S m) by lia.
  rewrite (skipn_all2 (n := (S i + m)%nat)) by (rewrite length_firstn; lia).
  rewrite app_nil_l, skipn_cons, skipn_skipn. f_equal. lia.
Qed.

(** The dynamics loop stores the profile of the k-th name at index
    [i + k] and records that index under the name. *)
Lemma dynamics_loop_spec (parameter_overrides : overrides) (names : list string) :
  forall st st',
    for_each (dynamics_body parameter_overrides) names st = Ok st' ->
    0 <= dyn_i st ->
    dyn_i st + Z.of_nat (length names) < 2 ^ 64 ->
    (exists built,
       Forall2 (dynamics_profile_of parameter_overrides) names built /\
       dynamicsConfigurations st' =
         (firstn (Z.to_nat (dyn_i st)) (dynamicsConfigurations st)
          ++ built
          ++ skipn (Z.to_nat (dyn_i st) + length names)
                   (dynamicsConfigurations st))%list) /\
    (forall n v,
       StringMap.MapsTo n v (dynamics_name_to_index st') ->
       (exists k, nth_error names k = Some n /\ v = dyn_i st + Z.of_nat k) \/
       StringMap.MapsTo n v (dynamics_name_to_index st)).
Proof.
  induction names as [|name names IH]; intros st st' H Hi Hlen;
    cbn [for_each] in H.
  - injection H as <-. split.
    + exists []. split; [constructor|]. cbn [app length].
      rewrite Nat.add_0_r. now rewrite firstn_skipn.
    + intros n v Hn. now right.
  - bind_named H as st1 Hbody. cbn [length] in Hlen.
    unfold dynamics_body in Hbody.
    bind_named Hbody as max_vel Hmv. bind_named Hbody as mxv Hmxv.
    bind_named Hbody as myv Hmyv. bind_named Hbody as mzv Hmzv.
    bind_named Hbody as max_ang Hma. bind_named Hbody as mrr Hmrr.
    bind_named Hbody as mpr Hmpr. bind_named Hbody as myr Hmyr.
    bind_named Hbody as mr Hmr. bind_named Hbody as mp Hmp.
    bind_named Hbody as mf Hmf. bind_named Hbody as cfgs Hstore.
    injection Hbody as <-.
    apply vec_store_Ok in Hstore. destruct Hstore as [Hrange ->].
    assert (Hi1 : size_t (dyn_i st + 1) = dyn_i st + 1).
    { unfold size_t. apply Z.mod_small. lia. }
    destruct (IH _ _ H) as [(built & Hbuilt & Hcfgs) Hmap];
      cbn [dyn_i dynamicsConfigurations dynamics_name_to_index] in *;
      rewrite ?Hi1; try lia.
    rewrite Hi1 in Hcfgs, Hmap.
    split.
    + exists ({| maxXVelocity := mxv; maxYVelocity := myv; maxZVelocity := mzv;
                 maxRollRate := mrr; maxPitchRate := mpr; maxYawRate := myr;
                 maxRoll := mr; maxPitch := mp; maxFitnessScore := mf |}
              :: built).
      split.
      * constructor; [|exact Hbuilt].
        unfold dynamics_profile_of. cbv zeta.
        exists max_vel, max_ang.
        cbn [maxXVelocity maxYVelocity maxZVelocity maxRollRate maxPitchRate
             maxYawRate maxRoll maxPitch maxFitnessScore].
        repeat match goal with
               | Hv : vec_at _ _ = Ok _ |- _ => apply vec_at_Ok in Hv
               end.
        repeat (split; [assumption|]). assumption.
      * rewrite Hcfgs.
        replace (Z.to_nat (dyn_i st + 1)) with (S (Z.to_nat (dyn_i st))) by lia.
        assert (Hnat : (Z.to_nat (dyn_i st)
                        < length (dynamicsConfigurations st))%nat) by lia.
        rewrite (stored_firstn _ _ _ Hnat), (stored_skipn _ _ _ _ Hnat).
        rewrite <- app_assoc. cbn [app length].
        replace (Z.to_nat (dyn_i st) + S (length names))%nat
          with (S (Z.to_nat (dyn_i st)) + length names)%nat by lia.
        reflexivity.
    + intros n v Hn. destruct (Hmap n v Hn) as [(k & Hk & ->) | Hin].
      * left. exists (S k). split; [exact Hk | lia].
      * apply StringMapFacts.add_mapsto_iff in Hin.
        destruct Hin as [[<- <-] | [_ Hin]]; [|now right].
        left. exists 0%nat. split; [reflexivity | lia].
Qed.

Lemma rigid_body_loop_dynamics (parameter_overrides : overrides)
    (marker_map dynamics_map : StringMap.t Z) (names : list string) :
  let resolved o :=
    exists d,
      read_string parameter_overrides
                  ("rigid_bodies." ++ name o ++ ".dynamics")%string = Ok d /\
      StringMap.MapsTo d (dynamicsConfigurationIdx o) dynamics_map in
  forall objects objects',
    for_each (rigid_body_body parameter_overrides marker_map dynamics_map)
             names objects = Ok objects' ->
    Forall resolved objects -> Forall resolved objects'.
Proof.
  intros resolved. induction names as [|nm names IH];
    intros objects objects' H Hobjs; cbn [for_each] in H.
  - now injection H as <-.
  - bind_named H as objects1 Hbody. apply (IH _ _ H).
    unfold rigid_body_body in Hbody.
    bind_named Hbody as pos Hpos. bind_named Hbody as x Hx.
    bind_named Hbody as y Hy. bind_named Hbody as z Hz.
    bind_named Hbody as marker Hmarker. bind_named Hbody as dynamics Hdynamics.
    bind_named Hbody as mi Hmi. bind_named Hbody as di Hdi.
    injection Hbody as <-.
    apply Forall_app. split; [exact Hobjs|]. constructor; [|constructor].
    exists dynamics. split; [exact Hdynamics|].
    cbn [dynamicsConfigurationIdx Object_new]. now apply at_Ok.
Qed.

(** The dynamics half of C1, in general: in every configuration that is
    built (from fewer than [2^64] dynamics configurations), the profiles
    stand in the order of their names, and the dynamics index of every
    rigid body is the position of the profile that the body names. *)
Lemma dynamics_reference_resolved
    (parameter_overrides : overrides) (cfg : Configuration) :
  build_configuration parameter_overrides = Ok cfg ->
  exists dynamics_names,
    extract_names parameter_overrides "dynamics_configurations" = Ok dynamics_names /\
    (Z.of_nat (StringSet.cardinal dynamics_names) < 2 ^ 64 ->
     Forall2 (dynamics_profile_of parameter_overrides)
             (StringSet.elements dynamics_names)
             (cfg_dynamicsConfigurations cfg) /\
     Forall (dynamics_resolved parameter_overrides
               (StringSet.elements dynamics_names))
            (cfg_objects cfg)).
Proof.
  intros H. unfold build_configuration in H.
  bind_named H as dynamics_names Hdn. bind_named H as dyn Hdyn.
  bind_named H as marker_names Hmn. bind_named H as mk Hmk.
  bind_named H as body_names Hbn. bind_named H as objects Hobjs.
  injection H as <-. cbn [cfg_objects cfg_dynamicsConfigurations].
  exists dynamics_names. split; [exact Hdn|].
  rewrite StringSet.cardinal_spec. intros Hcard.
  pose proof (dynamics_loop_spec _ _ _ _ Hdyn) as Hspec.
  cbn [dyn_i dynamicsConfigurations dynamics_name_to_index] in Hspec.
  destruct Hspec as [(built & Hbuilt & Hcfgs) Hmap];
    [lia | rewrite Z.add_0_l; exact Hcard |].
  split.
  - rewrite Hcfgs. cbn [Z.to_nat firstn app Nat.add].
    rewrite skipn_all2 by (rewrite repeat_length; apply Nat.le_refl).
    now rewrite app_nil_r.
  - pose proof (rigid_body_loop_dynamics _ _ _ _ _ _ Hobjs (Forall_nil _)) as Hres.
    cbv zeta in Hres. revert Hres. apply Forall_impl.
    intros o (d & Hd & Hin).
    destruct (Hmap d _ Hin) as [(k & Hk & Hv) | Hempty].
    + exists d, k. repeat split; [exact Hd | exact Hk | lia].
    + now apply StringMapFacts.empty_mapsto_iff in Hempty.
Qed.

(** ** The frame loop: what one cycle does *)

Section FrameLoopFacts.

Context {TR : ObjectTrackerOps} {EI : EigenOps}.
Variable env : Env.

Lemma forM_push_marker {A : Type} (f : A -> PointXYZ) (l : list A) (w : World) :
  forM (fun a => push_marker (f a)) l w =
  set_markers (markers w ++ map f l)%list w.
Proof.
  revert w. induction l as [|a l IH]; intros w.
  - destruct w. cbn. now rewrite app_nil_r.
  - cbn [forM]. unfold seq at 1. unfold push_marker at 1. cbn.
    rewrite IH. cbn. now rewrite <- app_assoc.
Qed.

Lemma forM_push_transform {A : Type} (f : A -> TransformStamped) (l : list A)
    (w : World) :
  forM (fun a => push_transform (f a)) l w =
  set_transforms (transforms w ++ map f l)%list w.
Proof.
  revert w. induction l as [|a l IH]; intros w.
  - destruct w. cbn. now rewrite app_nil_r.
  - cbn [forM]. unfold seq at 1. unfold push_transform at 1. cbn.
    rewrite IH. cbn. now rewrite <- app_assoc.
Qed.

Lemma forM_emit {A : Type} (f : A -> Event) (l : list A) (w : World) :
  forM (fun a => emit (f a)) l w =
  (tt, {| frames_waited := frames_waited w; wall_reads := wall_reads w;
          chrono_reads := chrono_reads w; mocap := mocap w;
          tracker := tracker w; msgPointCloud := msgPointCloud w;
          transforms := transforms w; markers := markers w;
          trace := (trace w ++ map f l)%list |}).
Proof.
  revert w. induction l as [|a l IH]; intros w.
  - destruct w. cbn. now rewrite app_nil_r.
  - cbn [forM]. unfold seq at 1. cbn.
    rewrite IH. cbn. now rewrite <- app_assoc.
Qed.

Lemma forM_tracker_pose_body (chrono_now : time_point) (time : Time)
    (objs : list Object) (w : World) :
  forM (tracker_pose_body chrono_now time) objs w =
  (tt, {| frames_waited := frames_waited w; wall_reads := wall_reads w;
          chrono_reads := chrono_reads w; mocap := mocap w;
          tracker := tracker w; msgPointCloud := msgPointCloud w;
          transforms := (transforms w ++ tracked_transforms time objs)%list;
          markers := markers w;
          trace := (trace w ++ stale_warnings chrono_now objs)%list |}).
Proof.
  revert w. induction objs as [|o objs IH]; intros w.
  - destruct w. cbn. now rewrite !app_nil_r.
  - cbn [forM]. unfold seq at 1. unfold tracker_pose_body at 1.
    cbn [tracked_transforms stale_warnings flat_map].
    destruct (lastTransformationValid o); cbn; rewrite IH; cbn;
      now rewrite <- ?app_assoc, ?app_nil_r.
Qed.

End FrameLoopFacts.

Section FrameLoopCycle.

Context {TR : ObjectTrackerOps} {EI : EigenOps}.
Variable env : Env.

(** The state after one cycle, field by field. *)
Lemma cycle_exec (w : World) :
  let time := cycle_time env w in
  let chrono_now := cycle_chrono env w in
  let frame := cycle_frame env w in
  let upd := tracker_update (tracker w) (map marker_of_row (pointCloud frame)) in
  let batch := (backend_transforms time (rigidBodies frame)
                ++ tracked_transforms time (cycle_objects env w))%list in
  exec (cycle env) w =
  {| frames_waited := S (frames_waited w);
     wall_reads := S (wall_reads w);
     chrono_reads := S (chrono_reads w);
     mocap := frame;
     tracker := fst upd;
     msgPointCloud := fill_cloud time (pointCloud frame) (msgPointCloud w);
     transforms := batch;
     markers := map marker_of_row (pointCloud frame);
     trace :=
       (trace w
        ++ [PublishPointCloud (fill_cloud time (pointCloud frame) (msgPointCloud w))]
        ++ map LogWarn (snd upd)
        ++ stale_warnings chrono_now (cycle_objects env w)
        ++ (if 0 <? Z.of_nat (length batch) then [SendTransform batch] else [])
        ++ [SpinSome])%list |}.
Proof.
  intros time chrono_now frame upd batch.
  subst time chrono_now frame upd batch.
  unfold cycle_objects, cycle_time, cycle_chrono, cycle_frame, backend_transforms.
  unfold exec, cycle, seq, run_tracker, backend_poses, tracker_poses,
    publish_cloud, send_transforms, seq.
  cbn -[fill_cloud Z.of_nat Z.ltb].
  rewrite forM_push_marker. cbn -[fill_cloud Z.of_nat Z.ltb].
  rewrite forM_emit. cbn -[fill_cloud Z.of_nat Z.ltb].
  rewrite forM_push_transform. cbn -[fill_cloud Z.of_nat Z.ltb].
  rewrite forM_tracker_pose_body. cbn -[fill_cloud Z.of_nat Z.ltb].
  match goal with
  | |- context [if ?b then _ else _] => destruct b
  end; cbn -[fill_cloud]; rewrite <- ?app_assoc; reflexivity.
Qed.

End FrameLoopCycle.

(** ** The frame loop: specified properties *)

Section FrameLoopClaims.

Context {TR : ObjectTrackerOps} {EI : EigenOps}.
Variable env : Env.

Lemma skipn_app_exact {A : Type} (l r : list A) : skipn (length l) (l ++ r) = r.
Proof. induction l as [|a l IH]; [reflexivity | exact IH]. Qed.

(** The events of a cycle, in order. *)
Lemma cycle_events_exec (w : World) :
  let time := cycle_time env w in
  let frame := cycle_frame env w in
  let batch := (backend_transforms time (rigidBodies frame)
                ++ tracked_transforms time (cycle_objects env w))%list in
  cycle_events w (exec (cycle env) w) =
  ([PublishPointCloud (fill_cloud time (pointCloud frame) (msgPointCloud w))]
   ++ map LogWarn
        (snd (tracker_update (tracker w) (map marker_of_row (pointCloud frame))))
   ++ stale_warnings (cycle_chrono env w) (cycle_objects env w)
   ++ (if 0 <? Z.of_nat (length batch) then [SendTransform batch] else [])
   ++ [SpinSome])%list.
Proof.
  intros time frame batch. unfold cycle_events.
  rewrite cycle_exec. cbn [trace]. apply skipn_app_exact.
Qed.

Lemma filter_map_LogWarn (p : Event -> bool) (l : list string) :
  p (LogWarn "") = false -> (forall s, p (LogWarn s) = p (LogWarn "")) ->
  filter p (map LogWarn l) = [].
Proof.
  intros H0 H. induction l as [|s l IH]; [reflexivity|].
  cbn. now rewrite H, H0.
Qed.


Lemma filter_stale_warnings_none (p : Event -> bool) (chrono_now : time_point)
    (objs : list Object) :
  (forall n d, p (WarnNoUpdatedPose n d) = false) ->
  filter p (stale_warnings chrono_now objs) = [].
Proof.
  intros H. induction objs as [|o objs IH]; [reflexivity|].
  cbn [stale_warnings flat_map]. destruct (lastTransformationValid o).
  - exact IH.
  - cbn. now rewrite H.
Qed.

(** C5: in every cycle [node->now()] is called exactly once, and its value
    is the stamp of the cloud message and of every transform of the batch
    that the cycle publishes. *)
Theorem cycle_single_stamp (w : World) :
  let w' := exec (cycle env) w in
  wall_reads w' = S (wall_reads w) /\
  Forall (fun e => Forall (fun s => s = cycle_time env w) (event_stamps e))
         (cycle_events w w') /\
  Forall (fun t => stamp (ts_header t) = cycle_time env w) (transforms w').
Proof.
  intros w'.
  assert (Hbatch : Forall (fun t => stamp (ts_header t) = cycle_time env w)
                          (backend_transforms (cycle_time env w)
                             (rigidBodies (cycle_frame env w))
                           ++ tracked_transforms (cycle_time env w)
                                (cycle_objects env w))).
  { apply Forall_app. split.
    - unfold backend_transforms. apply Forall_map, Forall_forall.
      intros x _. reflexivity.
    - unfold tracked_transforms. apply Forall_flat_map, Forall_forall.
      intros o _. destruct (lastTransformationValid o); repeat constructor. }
  unfold w'. split; [|split].
  - rewrite cycle_exec. reflexivity.
  - rewrite cycle_events_exec.
    repeat (apply Forall_app; split).
    + repeat constructor.
    + apply Forall_map, Forall_forall. intros s _. constructor.
    + unfold stale_warnings. apply Forall_flat_map, Forall_forall.
      intros o _. destruct (lastTransformationValid o); repeat constructor.
    + match goal with
      | |- context [if ?b then _ else _] => destruct b
      end; repeat constructor.
      cbn [event_stamps]. apply Forall_map. exact Hbatch.
    + repeat constructor.
  - rewrite cycle_exec. cbn [transforms]. exact Hbatch.
Qed.

(** C10: in every cycle the batch is the transforms of the poses reported
    by the backend, in the order of the backend's map, followed by the
    transforms of the bodies that the tracker fitted; every entry of the
    first kind stands at a smaller index than every entry of the second
    kind; and a batch that is not empty is sent as it stands. *)
Theorem batch_backend_before_tracker (w : World) :
  let w' := exec (cycle env) w in
  let reported :=
    backend_transforms (cycle_time env w) (rigidBodies (cycle_frame env w)) in
  let estimated :=
    tracked_transforms (cycle_time env w) (tracker_objects (tracker w')) in
  transforms w' = (reported ++ estimated)%list /\
  (forall i j r e,
     nth_error reported i = Some r -> nth_error estimated j = Some e ->
     nth_error (transforms w') i = Some r /\
     nth_error (transforms w') (length reported + j) = Some e /\
     (i < length reported + j)%nat) /\
  filter is_batch (cycle_events w w') =
    if 0 <? Z.of_nat (length (transforms w'))
    then [SendTransform (reported ++ estimated)%list] else [].
Proof.
  intros w' reported estimated.
  assert (Hobjs : tracker_objects (tracker w') = cycle_objects env w).
  { unfold w'. rewrite cycle_exec. reflexivity. }
  assert (Htr : transforms w' = (reported ++ estimated)%list).
  { unfold w', reported, estimated. rewrite Hobjs, cycle_exec. reflexivity. }
  split; [exact Htr|]. split.
  - intros i j r e Hi Hj. rewrite Htr.
    assert (Hlt : (i < length reported)%nat)
      by (apply nth_error_Some; congruence).
    split; [|split].
    + now rewrite nth_error_app1.
    + rewrite nth_error_app2 by lia.
      now replace (length reported + j - length reported)%nat with j by lia.
    + lia.
  - rewrite Htr. unfold w', reported, estimated. rewrite Hobjs.
    rewrite cycle_events_exec.
    cbn [app filter is_batch].
    rewrite !filter_app, filter_stale_warnings_none by reflexivity.
    rewrite filter_map_LogWarn by reflexivity.
    match goal with
    | |- context [if ?b then _ else _] => destruct b
    end; reflexivity.
Qed.

End FrameLoopClaims.

(** ** The marker cloud message *)

Lemma length_pointcloud_data (pointcloud : list Vector3f) :
  Z.of_nat (length (pointcloud_data pointcloud)) = rows pointcloud * 12.
Proof.
  unfold rows, pointcloud_data.
  induction pointcloud as [|p pc IH]; [reflexivity|].
  cbn [flat_map]. rewrite !length_app. cbn [float_bytes length].
  rewrite !Nat2Z.inj_add, IH. cbn [length]. lia.
Qed.

Lemma length_resize (v : list Z) (n : Z) :
  0 <= n -> Z.of_nat (length (resize v n)) = n.
Proof.
  intros H. unfold resize.
  rewrite length_app, length_firstn, repeat_length. lia.
Qed.

Lemma length_memcpy (dst src : list Z) :
  (length dst <= length src)%nat ->
  length (memcpy dst src (Z.of_nat (length dst))) = length dst.
Proof.
  intros H. unfold memcpy.
  rewrite Nat2Z.id, length_app, length_firstn, length_skipn. lia.
Qed.

Lemma fill_cloud_size (time : Time) (pointcloud : list Vector3f) (m : PointCloud2) :
  rows pointcloud < 2 ^ 32 ->
  pc_width (fill_cloud time pointcloud m) = rows pointcloud /\
  Z.of_nat (length (pc_data (fill_cloud time pointcloud m))) = rows pointcloud * 12.
Proof.
  intros H. assert (H0 : 0 <= rows pointcloud) by (unfold rows; lia).
  unfold fill_cloud. cbn [pc_width pc_data]. split.
  - unfold uint32. apply Z.mod_small. lia.
  - assert (Hs : size_t (rows pointcloud * 3 * 4) = rows pointcloud * 12).
    { unfold size_t. rewrite Z.mod_small; lia. }
    rewrite Hs.
    pose proof (length_resize (pc_data m) (rows pointcloud * 12)) as Hr.
    pose proof (length_pointcloud_data pointcloud) as Hd.
    rewrite length_memcpy; lia.
Qed.

Section CloudMessage.

Context {TR : ObjectTrackerOps} {EI : EigenOps}.
Variable env : Env.

Lemma frames_waited_run (n : nat) (w : World) :
  frames_waited (run env n w) = (n + frames_waited w)%nat.
Proof.
  induction n as [|n IH]; [reflexivity|].
  cbn [run]. rewrite cycle_exec. cbn [frames_waited]. rewrite IH. lia.
Qed.

(** The parts of the message that are prepared before the loop are never
    assigned again. *)
Lemma msgPointCloud_run (cfg : Configuration) (n : nat) :
  let m := msgPointCloud (run env n (init_world cfg)) in
  pc_fields m = pc_fields msgPointCloud_init /\
  pc_point_step m = 12 /\
  frame_id (pc_header m) = "world"%string.
Proof.
  induction n as [|n IH]; [repeat split|].
  cbn [run]. rewrite cycle_exec. cbn [msgPointCloud].
  unfold fill_cloud. cbn [pc_fields pc_point_step pc_header frame_id].
  exact IH.
Qed.

(** C6: in every cycle exactly one marker cloud message is published,
    whatever the number [N] of captured points; its fields are x, y and z,
    of type float32, at offsets 0, 4 and 8, its point step is 12 and its
    frame is "world"; and, [N] fitting the 32-bit width field, its width is
    [N] and its data holds [width * 12] bytes. *)
Theorem cloud_message_layout (cfg : Configuration) (n : nat) :
  let w := run env n (init_world cfg) in
  let w' := exec (cycle env) w in
  let N := rows (pointCloud (env_frame env n)) in
  N < 2 ^ 32 ->
  exists m,
    filter is_cloud (cycle_events w w') = [PublishPointCloud m] /\
    pc_width m = N /\
    Z.of_nat (length (pc_data m)) = pc_width m * 12 /\
    pc_fields m =
      [ {| field_name := "x"; field_offset := 0;
           field_datatype := FLOAT32; field_count := 1 |};
        {| field_name := "y"; field_offset := 4;
           field_datatype := FLOAT32; field_count := 1 |};
        {| field_name := "z"; field_offset := 8;
           field_datatype := FLOAT32; field_count := 1 |} ] /\
    pc_point_step m = 12 /\
    frame_id (pc_header m) = "world"%string.
Proof.
  intros w w' N HN.
  assert (Hframe : cycle_frame env w = env_frame env n).
  { unfold cycle_frame, w. rewrite frames_waited_run. cbn. now rewrite Nat.add_0_r. }
  destruct (msgPointCloud_run cfg n) as (Hfields & Hstep & Hid). fold w in Hfields, Hstep, Hid.
  exists (fill_cloud (cycle_time env w) (pointCloud (cycle_frame env w))
                     (msgPointCloud w)).
  split.
  - unfold w'. rewrite cycle_events_exec.
    cbn [app filter is_cloud]. f_equal.
    rewrite !filter_app, filter_stale_warnings_none by reflexivity.
    rewrite filter_map_LogWarn by reflexivity.
    match goal with
    | |- context [if ?b then _ else _] => destruct b
    end; reflexivity.
  - rewrite Hframe.
    destruct (fill_cloud_size (cycle_time env w) (pointCloud (env_frame env n))
                              (msgPointCloud w) HN) as [Hw Hd].
    rewrite Hw. repeat split; try assumption.
Qed.

(** When the configuration cannot be built, [main] ends there: no cycle is
    run. *)
Lemma main_aborts (parameter_overrides : overrides) (e : exn) (n : nat) :
  build_configuration parameter_overrides = Throw e ->
  main env parameter_overrides n = Throw e.
Proof. intros H. unfold main. now rewrite H. Qed.

End CloudMessage.

Lemma cloud_message_layout_witness :
  rows (pointCloud (env_frame Examples.one_marker_env 0)) < 2 ^ 32 /\
  exists m,
    filter is_cloud
      (cycle_events
         (run (TR := Examples.idle_tracker) (EI := Examples.identity_rotation)
              Examples.one_marker_env 0 (init_world Examples.empty_configuration))
         (exec (cycle (TR := Examples.idle_tracker)
                      (EI := Examples.identity_rotation) Examples.one_marker_env)
            (run (TR := Examples.idle_tracker) (EI := Examples.identity_rotation)
                 Examples.one_marker_env 0
                 (init_world Examples.empty_configuration))))
      = [PublishPointCloud m] /\
    pc_width m = rows (pointCloud (env_frame Examples.one_marker_env 0)) /\
    Z.of_nat (length (pc_data m)) = pc_width m * 12 /\
    pc_fields m =
      [ {| field_name := "x"; field_offset := 0;
           field_datatype := FLOAT32; field_count := 1 |};
        {| field_name := "y"; field_offset := 4;
           field_datatype := FLOAT32; field_count := 1 |};
        {| field_name := "z"; field_offset := 8;
           field_datatype := FLOAT32; field_count := 1 |} ] /\
    pc_point_step m = 12 /\
    frame_id (pc_header m) = "world"%string.
Proof.
  split; [reflexivity|].
  apply (cloud_message_layout (TR := Examples.idle_tracker)
           (EI := Examples.identity_rotation)
           Examples.one_marker_env Examples.empty_configuration 0).
  reflexivity.
Defined.

(** ** Configuration building: indices and failures *)

(** C1 on the profiles "slow" and "fast", the marker configuration "m1" and
    the rigid body "cf1" that names "m1" and "fast", whichever way the keys
    are declared: the dynamics index of "cf1" is 0, the position of "fast"
    among the two profiles; its marker index is 2, the value left in the
    counter by the dynamics loop, where the only marker template, that of
    "m1", stands at index 0. *)
Theorem rigid_body_indices_slow_fast :
  names_under Examples.slow_fast_overrides "dynamics_configurations"
    = Ok ["fast"; "slow"]%string /\
  names_under Examples.slow_fast_overrides "marker_configurations"
    = Ok ["m1"]%string /\
  built_sizes Examples.slow_fast_overrides = Ok (2%nat, 1%nat) /\
  built_indices Examples.slow_fast_overrides = Ok [("cf1"%string, 0, 2)] /\
  built_sizes Examples.fast_slow_overrides = Ok (2%nat, 1%nat) /\
  built_indices Examples.fast_slow_overrides = Ok [("cf1"%string, 0, 2)].
Proof. repeat split; vm_compute; reflexivity. Qed.

(** A required key that is missing is a thrown exception, whatever is read
    from it. *)
Lemma read_missing_key (parameter_overrides : overrides) (key : string) :
  ~ StringMap.In key parameter_overrides ->
  read_vec parameter_overrides key = Throw out_of_range /\
  read_double parameter_overrides key = Throw out_of_range /\
  read_string parameter_overrides key = Throw out_of_range.
Proof.
  intros H. unfold read_vec, read_double, read_string.
  rewrite (at_missing _ _ H). repeat split.
Qed.

(** A dynamics array with fewer than three elements is a thrown exception:
    it is read with [at]. *)
Lemma dynamics_body_short_velocity (parameter_overrides : overrides)
    (st : dynamics_state) (name : string) (max_vel : list double) :
  read_vec parameter_overrides
           ("dynamics_configurations." ++ name ++ ".max_velocity")%string
    = Ok max_vel ->
  (length max_vel < 3)%nat ->
  dynamics_body parameter_overrides st name = Throw out_of_range.
Proof.
  intros Hread Hlen. unfold dynamics_body.
  change (("dynamics_configurations." ++ name) ++ ".max_velocity")%string
    with ("dynamics_configurations." ++ name ++ ".max_velocity")%string.
  rewrite Hread. cbn [bind]. unfold vec_at.
  destruct max_vel as [|a [|b [|c l]]]; cbn in Hlen |- *; try reflexivity. lia.
Qed.

(** A rigid body that names a marker configuration or a dynamics profile
    that does not exist is a thrown exception: both names are looked up
    with [at]. *)
Lemma rigid_body_body_unresolved (parameter_overrides : overrides)
    (marker_map dynamics_map : StringMap.t Z) (objects : list Object)
    (name marker dynamics : string) (x y z : double) (rest : list double) :
  read_vec parameter_overrides
           (("rigid_bodies." ++ name) ++ ".initial_position")%string
    = Ok (x :: y :: z :: rest) ->
  read_string parameter_overrides (("rigid_bodies." ++ name) ++ ".marker")%string
    = Ok marker ->
  read_string parameter_overrides (("rigid_bodies." ++ name) ++ ".dynamics")%string
    = Ok dynamics ->
  ~ StringMap.In marker marker_map \/ ~ StringMap.In dynamics dynamics_map ->
  rigid_body_body parameter_overrides marker_map dynamics_map objects name
    = Throw out_of_range.
Proof.
  intros Hpos Hmarker Hdynamics Hmissing. unfold rigid_body_body.
  rewrite Hpos. cbn [bind vec_index nth_error]. rewrite Hmarker, Hdynamics.
  cbn [bind]. destruct Hmissing as [H | H].
  - now rewrite (at_missing _ _ H).
  - rewrite (at_missing _ _ H). unfold at_.
    destruct (StringMap.find marker marker_map); reflexivity.
Qed.

(** A rigid body whose [initial_position] has fewer than three elements is
    not: the array is read with unchecked [operator[]]. *)
Lemma rigid_body_body_short_position (parameter_overrides : overrides)
    (marker_map dynamics_map : StringMap.t Z) (objects : list Object)
    (name : string) (pos : list double) :
  read_vec parameter_overrides
           (("rigid_bodies." ++ name) ++ ".initial_position")%string = Ok pos ->
  (length pos < 3)%nat ->
  rigid_body_body parameter_overrides marker_map dynamics_map objects name
    = Undefined.
Proof.
  intros Hpos Hlen. unfold rigid_body_body. rewrite Hpos. cbn [bind].
  unfold vec_index.
  destruct pos as [|a [|b [|c l]]]; cbn in Hlen |- *; try reflexivity. lia.
Qed.

(** The sibling paths of C7 do end the process: a dynamics array that is too
    short is read with [at] and throws, and so does a reference to a
    profile that does not exist. *)
Lemma checked_failures_throw :
  build_configuration Examples.short_velocity_overrides = Throw out_of_range /\
  build_configuration Examples.unresolved_overrides = Throw out_of_range.
Proof. split; reflexivity. Qed.

(** C7 on arrays of two elements: the [initial_position] of a rigid body and
    the [offset] of a marker configuration are read with unchecked
    [operator[]], so the third read is out of range and the behaviour is
    undefined; no exception is thrown and nothing stops [main] from going
    on. *)
Theorem short_array_unchecked :
  build_configuration Examples.short_position_overrides = Undefined /\
  build_configuration Examples.short_offset_overrides = Undefined /\
  (forall (TR : ObjectTrackerOps) (EI : EigenOps) (env : Env) (n : nat),
     main env Examples.short_position_overrides n = Undefined).
Proof.
  split; [reflexivity|]. split; [reflexivity|].
  intros TR EI env n. reflexivity.
Qed.

(** ** Two cycles on concrete inputs *)

(** With a backend that reports "cf1" and a tracker that has fitted "cf1",
    the batch of the first cycle holds two transforms for the child frame
    "cf1": the backend's first, the tracker's second, both with the stamp
    of the cycle. *)
Lemma first_cycle_duplicate_child_frames :
  match main (TR := Examples.still_tracker) (EI := Examples.identity_rotation)
             Examples.one_marker_env Examples.slow_fast_overrides 1 with
  | Ok w => map (fun t => (child_frame_id t, stamp (ts_header t))) (transforms w)
            = [("cf1"%string, 1000); ("cf1"%string, 1000)]
  | _ => False
  end.
Proof. vm_compute. reflexivity. Qed.

(** With a tracker that has fitted nothing, the first cycle publishes the
    cloud, warns that "cf1" has had no pose for five seconds (the clock
    reads 5000000000 ticks and the body has never been fitted), sends the
    backend's transform alone and spins. *)
Lemma first_cycle_stale_body :
  match main (TR := Examples.idle_tracker) (EI := Examples.identity_rotation)
             Examples.one_marker_env Examples.slow_fast_overrides 1 with
  | Ok w =>
      map (fun e => match e with
                    | PublishPointCloud m => ("cloud"%string, pc_width m)
                    | SendTransform b => ("batch"%string, Z.of_nat (length b))
                    | LogWarn _ => ("tracker warning"%string, 0)
                    | WarnNoUpdatedPose _ d =>
                        ("no pose"%string,
                         if SFeqb d (double_of_int 5) then 5 else -1)
                    | SpinSome => ("spin"%string, 0)
                    end) (trace w)
      = [("cloud"%string, 1); ("no pose"%string, 5); ("batch"%string, 1);
         ("spin"%string, 0)]
  | _ => False
  end.
Proof. vm_compute. reflexivity. Qed.

(** With no marker captured, no backend pose and no body to track, the
    cycle still publishes the cloud message, of width 0 and without data,
    and sends no batch. *)
Lemma first_cycle_empty_frame :
  match main (TR := Examples.idle_tracker) (EI := Examples.identity_rotation)
             Examples.no_marker_env (StringMap.empty ParameterValue) 1 with
  | Ok w =>
      map (fun e => match e with
                    | PublishPointCloud m =>
                        ("cloud"%string, pc_width m, length (pc_data m))
                    | SendTransform b => ("batch"%string, 0, length b)
                    | LogWarn _ => ("tracker warning"%string, 0, 0%nat)
                    | WarnNoUpdatedPose _ _ => ("no pose"%string, 0, 0%nat)
                    | SpinSome => ("spin"%string, 0, 0%nat)
                    end) (trace w)
      = [("cloud"%string, 0, 0%nat); ("spin"%string, 0, 0%nat)]
  | _ => False
  end.
Proof. vm_compute. reflexivity. Qed.

(** * Further properties of the code *)

(** ** [extract_names]: failure, shape of names, dependence on the map *)

Lemma extract_names_body_nonexact (p : string) (acc : StringSet.t)
    (key : string) (v : ParameterValue) :
  representable p -> key <> p ->
  exists s, extract_names_body p acc (key, v) = Ok s.
Proof.
  intros Hp Hne. destruct (String.prefix p key) eqn:E.
  - destruct (prefix_split p key E) as [r ->].
    destruct r as [|c rest]; [now rewrite append_empty in Hne|].
    unfold extract_names_body. cbn [fst].
    rewrite (proj2 (find_0_prefix _ p)) by (now exists (String c rest)).
    unfold substr, representable in *.
    pose proof (size_nonneg p). pose proof (size_nonneg rest).
    rewrite size_t_small by lia.
    assert (Hs : size (p ++ String c rest) = size p + 1 + size rest).
    { rewrite size_append. unfold size. cbn [String.length].
      rewrite Nat2Z.inj_succ. lia. }
    destruct (size (p ++ String c rest) <? size p + 1) eqn:E2;
      [apply Z.ltb_lt in E2; lia|].
    cbn [bind]. eauto.
  - exists acc. apply extract_names_body_other.
    intros r ->. now rewrite prefix_append in E.
Qed.

Lemma extract_names_from_total (p : string)
    (l : list (string * ParameterValue)) :
  representable p ->
  (forall k v, In (k, v) l -> k <> p) ->
  forall acc, exists s, for_each (extract_names_body p) l acc = Ok s.
Proof.
  intros Hp. induction l as [|[k v] l IH]; intros Hl acc.
  - exists acc. reflexivity.
  - cbn [for_each].
    destruct (extract_names_body_nonexact p acc k v Hp) as [s ->].
    + apply (Hl k v). now left.
    + cbn [bind]. apply IH. intros k' v' H. apply (Hl k' v'). now right.
Qed.

(** Either the pattern is a key and the call throws, or it is not and the
    call returns. *)
Lemma extract_names_fails_aux (parameter_overrides : overrides) (pattern : string) :
  representable pattern ->
  (StringMap.In pattern parameter_overrides /\
   extract_names parameter_overrides pattern = Throw out_of_range) \/
  (~ StringMap.In pattern parameter_overrides /\
   exists names, extract_names parameter_overrides pattern = Ok names).
Proof.
  intros Hp.
  destruct (StringMapFacts.In_dec parameter_overrides pattern) as [Hin | Hnot].
  - left. split; [exact Hin|]. destruct Hin as [v Hv].
    unfold extract_names, extract_names_from.
    apply (extract_names_from_throw pattern v _ Hp). now apply elements_In.
  - right. split; [exact Hnot|]. unfold extract_names, extract_names_from.
    apply (extract_names_from_total pattern _ Hp).
    intros k v Hin ->. apply Hnot. exists v. now apply elements_In.
Qed.

(** [extract_names] fails exactly when the pattern itself is a key of the
    map, and then with [std::out_of_range]; on every other map it returns
    a set. *)
Theorem extract_names_fails_iff_pattern_is_key
    (parameter_overrides : overrides) (pattern : string) :
  representable pattern ->
  (StringMap.In pattern parameter_overrides ->
   extract_names parameter_overrides pattern = Throw out_of_range) /\
  (~ StringMap.In pattern parameter_overrides ->
   exists names, extract_names parameter_overrides pattern = Ok names).
Proof.
  intros Hp. split.
  - intros [v Hv]. unfold extract_names, extract_names_from.
    apply (extract_names_from_throw pattern v _ Hp). now apply elements_In.
  - intros Hnot. unfold extract_names, extract_names_from.
    apply (extract_names_from_total pattern _ Hp).
    intros k v Hin ->. apply Hnot. exists v. now apply elements_In.
Qed.

Lemma extract_names_fails_iff_pattern_is_key_witness :
  (StringMap.In "rigid_bodies" Examples.bare_prefix_overrides ->
   extract_names Examples.bare_prefix_overrides "rigid_bodies"
     = Throw out_of_range) /\
  (~ StringMap.In "rigid_bodies" Examples.bare_prefix_overrides ->
   exists names,
     extract_names Examples.bare_prefix_overrides "rigid_bodies" = Ok names).
Proof.
  apply (extract_names_fails_iff_pattern_is_key
           Examples.bare_prefix_overrides "rigid_bodies").
  reflexivity.
Defined.

Lemma until_dot_no_dot (s : string) : String.index 0 "." (until_dot s) = None.
Proof.
  induction s as [|c s IH]; [reflexivity|].
  cbn [until_dot]. destruct (Ascii.eqb c "."%char) eqn:E; [reflexivity|].
  rewrite index_0_cons, prefix_dot_cons, E, IH. reflexivity.
Qed.

Lemma until_dot_append (n rest : string) :
  String.index 0 "." n = None ->
  until_dot (n ++ String "."%char rest) = n.
Proof.
  induction n as [|c n IH]; intros H.
  - reflexivity.
  - rewrite index_0_cons, prefix_dot_cons in H.
    change (String c n ++ String "."%char rest)%string
      with (String c (n ++ String "."%char rest)).
    cbn [until_dot]. destruct (Ascii.eqb c "."%char); [discriminate|].
    destruct (String.index 0 "." n); [discriminate|]. now rewrite IH.
Qed.

(** When [extract_names] returns, no key is the pattern. *)
Lemma extract_names_Ok_keys (parameter_overrides : overrides) (pattern : string)
    (names : StringSet.t) :
  representable pattern ->
  extract_names parameter_overrides pattern = Ok names ->
  forall k v, In (k, v) (StringMap.elements parameter_overrides) -> k <> pattern.
Proof.
  intros Hp Hok k v Hin ->.
  unfold extract_names, extract_names_from in Hok.
  rewrite (extract_names_from_throw pattern v _ Hp Hin) in Hok. discriminate.
Qed.

(** The tokens of a returned set, whatever made the call succeed. *)
Lemma extract_names_Ok_tokens (parameter_overrides : overrides) (pattern : string)
    (names : StringSet.t) :
  representable pattern ->
  (forall k, StringMap.In k parameter_overrides -> representable k) ->
  extract_names parameter_overrides pattern = Ok names ->
  forall tok, StringSet.In tok names <->
    exists k v, StringMap.MapsTo k v parameter_overrides /\
                child_token_code pattern k tok.
Proof.
  intros Hp Hrep Hok tok.
  assert (Hl : forall k v, In (k, v) (StringMap.elements parameter_overrides) ->
                           representable k /\ k <> pattern).
  { intros k v H. split.
    - apply Hrep. exists v. now apply elements_In.
    - exact (extract_names_Ok_keys _ _ _ Hp Hok k v H). }
  destruct (extract_names_from_ok pattern _ Hp Hl StringSet.empty)
    as (names' & Hnames' & Hspec).
  unfold extract_names, extract_names_from in Hok.
  rewrite Hnames' in Hok. injection Hok as <-.
  rewrite Hspec. split.
  - intros [Hempty | (k & v & Hin & Hc)].
    + now apply StringSet.empty_spec in Hempty.
    + exists k, v. split; [now apply elements_In | exact Hc].
  - intros (k & v & Hin & Hc). right.
    exists k, v. split; [now apply elements_In | exact Hc].
Qed.

(** Every name that [extract_names] returns is free of dots. *)
Theorem extract_names_no_dot
    (parameter_overrides : overrides) (pattern : string) (names : StringSet.t) :
  representable pattern ->
  (forall k, StringMap.In k parameter_overrides -> representable k) ->
  extract_names parameter_overrides pattern = Ok names ->
  forall tok, StringSet.In tok names -> String.index 0 "." tok = None.
Proof.
  intros Hp Hrep Hok tok Hin.
  apply (extract_names_Ok_tokens _ _ _ Hp Hrep Hok) in Hin.
  destruct Hin as (k & v & _ & c & rest & _ & ->).
  apply until_dot_no_dot.
Qed.

(** A key built the way [main] builds them, [pattern + "." + name + "." +
    field] with a dot-free [name], puts [name] in the set. *)
Theorem extract_names_finds_name
    (parameter_overrides : overrides) (pattern name field : string)
    (names : StringSet.t) :
  representable pattern ->
  (forall k, StringMap.In k parameter_overrides -> representable k) ->
  extract_names parameter_overrides pattern = Ok names ->
  String.index 0 "." name = None ->
  StringMap.In (pattern ++ "." ++ name ++ "." ++ field)%string
               parameter_overrides ->
  StringSet.In name names.
Proof.
  intros Hp Hrep Hok Hname [v Hv].
  apply (extract_names_Ok_tokens _ _ _ Hp Hrep Hok).
  exists (pattern ++ "." ++ name ++ "." ++ field)%string, v.
  split; [exact Hv|].
  exists "."%char, (name ++ "." ++ field)%string. split; [reflexivity|].
  symmetry. now apply until_dot_append.
Qed.

(** The result of [extract_names] depends only on which keys beginning
    with the pattern the map has: neither the values nor the other keys
    matter. *)
Theorem extract_names_depends_on_matching_keys
    (m1 m2 : overrides) (pattern : string) :
  representable pattern ->
  (forall k, StringMap.In k m1 -> representable k) ->
  (forall k, StringMap.In k m2 -> representable k) ->
  (forall k r, k = (pattern ++ r)%string ->
               (StringMap.In k m1 <-> StringMap.In k m2)) ->
  extract_names m1 pattern = extract_names m2 pattern.
Proof.
  intros Hp Hrep1 Hrep2 Hkeys.
  assert (Hpat : StringMap.In pattern m1 <-> StringMap.In pattern m2).
  { apply (Hkeys pattern ""%string). now rewrite append_empty. }
  destruct (extract_names_fails_aux m1 pattern Hp) as [[Hin1 H1] | [Hn1 [s1 H1]]].
  - rewrite H1. symmetry.
    destruct (extract_names_fails_aux m2 pattern Hp) as [[_ H2] | [Hn2 _]];
      [exact H2 | now apply Hpat in Hin1].
  - destruct (extract_names_fails_aux m2 pattern Hp) as [[Hin2 _] | [_ [s2 H2]]];
      [now apply Hpat in Hin2|].
    rewrite H1, H2. f_equal. apply StringSet.eq_leibniz. intros tok.
    rewrite (extract_names_Ok_tokens _ _ _ Hp Hrep1 H1 tok).
    rewrite (extract_names_Ok_tokens _ _ _ Hp Hrep2 H2 tok).
    split; intros (k & v & Hv & c & rest & Hk & Htok).
    + assert (Hin : StringMap.In k m2)
        by (apply (Hkeys k (String c rest) Hk); now exists v).
      destruct Hin as [v' Hv']. exists k, v'. split; [exact Hv'|].
      now exists c, rest.
    + assert (Hin : StringMap.In k m1)
        by (apply (Hkeys k (String c rest) Hk); now exists v).
      destruct Hin as [v' Hv']. exists k, v'. split; [exact Hv'|].
      now exists c, rest.
Qed.

(** Enumerates the keys of a concrete map from [H : StringMap.In k m]. *)
Ltac map_keys H :=
  let v := fresh "v" in
  destruct H as [v H]; apply elements_In in H; vm_compute in H;
  repeat (destruct H as [H | H]; [injection H as <- <- | ]);
  [ .. | destruct H ].

Lemma extract_names_dotted_witness :
  exists names,
    extract_names Examples.two_bodies_overrides "rigid_bodies" = Ok names /\
    forall tok, StringSet.In tok names <->
      exists k v, StringMap.MapsTo k v Examples.two_bodies_overrides /\
                  child_token_spec "rigid_bodies" k tok.
Proof.
  apply (extract_names_dotted Examples.two_bodies_overrides "rigid_bodies").
  - reflexivity.
  - intros k H. map_keys H; reflexivity.
  - intros k r H Hk. map_keys H; cbn in Hk; try discriminate Hk;
      injection Hk as <-; eexists; reflexivity.
Defined.

Lemma extract_names_no_dot_witness :
  extract_names Examples.two_bodies_overrides "rigid_bodies"
    = Ok Examples.two_bodies_names /\
  forall tok, StringSet.In tok Examples.two_bodies_names ->
              String.index 0 "." tok = None.
Proof.
  split; [vm_compute; reflexivity|].
  apply (extract_names_no_dot Examples.two_bodies_overrides "rigid_bodies"
           Examples.two_bodies_names).
  - reflexivity.
  - intros k H. map_keys H; reflexivity.
  - vm_compute. reflexivity.
Defined.

Lemma extract_names_finds_name_witness :
  StringSet.In "cf1" Examples.two_bodies_names.
Proof.
  apply (extract_names_finds_name Examples.two_bodies_overrides
           "rigid_bodies" "cf1" "marker" Examples.two_bodies_names).
  - reflexivity.
  - intros k H. map_keys H; reflexivity.
  - vm_compute. reflexivity.
  - reflexivity.
  - exists (PARAMETER_STRING "m1"). apply StringMap.find_2. reflexivity.
Defined.

Lemma extract_names_depends_on_matching_keys_witness :
  extract_names Examples.two_bodies_overrides "rigid_bodies" =
  extract_names Examples.two_bodies_other_values "rigid_bodies".
Proof.
  apply (extract_names_depends_on_matching_keys
           Examples.two_bodies_overrides Examples.two_bodies_other_values
           "rigid_bodies").
  - reflexivity.
  - intros k H. map_keys H; reflexivity.
  - intros k H. map_keys H; reflexivity.
  - intros k r Hk. split; intros H; map_keys H; cbn in Hk;
      try discriminate Hk;
      (eexists; apply StringMap.find_2; reflexivity).
Defined.

(** ** [get_vec]: outcomes and values *)

Lemma iter_xO_Z (k p : positive) : Zpos (Pos.iter xO p k) = Zpos p * 2 ^ Zpos k.
Proof.
  revert p. induction k using Pos.peano_ind; intros p.
  - cbn. lia.
  - rewrite Pos.iter_succ, Pos2Z.inj_succ, Z.pow_succ_r by lia.
    rewrite Pos2Z.inj_xO, IHk. lia.
Qed.

Lemma iter_xO_digits (k p : positive) :
  digits2_pos (Pos.iter xO p k) = (digits2_pos p + k)%positive.
Proof.
  revert p. induction k using Pos.peano_ind; intros p.
  - cbn. lia.
  - rewrite Pos.iter_succ. cbn [digits2_pos]. rewrite IHk. lia.
Qed.

Lemma digits2_pos_bound (p : positive) (n : Z) :
  0 <= n -> Zpos p < 2 ^ n -> Zpos (digits2_pos p) <= n.
Proof.
  revert n. induction p as [p IH | p IH |]; intros n Hn H; cbn [digits2_pos].
  - assert (n <> 0) by (intros ->; cbn in H; lia).
    replace n with (Z.succ (n - 1)) in H by lia.
    rewrite Z.pow_succ_r in H by lia.
    specialize (IH (n - 1)). rewrite Pos2Z.inj_succ. lia.
  - assert (n <> 0) by (intros ->; cbn in H; lia).
    replace n with (Z.succ (n - 1)) in H by lia.
    rewrite Z.pow_succ_r in H by lia.
    specialize (IH (n - 1)). rewrite Pos2Z.inj_succ. lia.
  - assert (n <> 0) by (intros ->; cbn in H; lia). lia.
Qed.

(** Rounding a mantissa of full width changes nothing. *)
Lemma binary_round_aux_canonical (s : bool) (m : positive) (e : Z) :
  Zpos (digits2_pos m) = 53 -> -1074 <= e <= 971 ->
  binary_round_aux 53 1024 s (Zpos m) e loc_Exact = S754_finite s m e.
Proof.
  intros Hd He.
  assert (Hshr : shr_fexp 53 1024 (Zpos m) e loc_Exact
                 = (shr_record_of_loc (Zpos m) loc_Exact, e)).
  { unfold shr_fexp. cbn [Zdigits2]. rewrite Hd.
    replace (fexp 53 1024 (53 + e) - e) with 0 by (unfold fexp, emin; lia).
    reflexivity. }
  unfold binary_round_aux. rewrite Hshr.
  cbn [shr_record_of_loc shr_m loc_of_shr_record shr_r shr_s round_nearest_even].
  rewrite Hshr. cbn [shr_record_of_loc shr_m].
  destruct (e <=? 1024 - 53) eqn:E; [reflexivity | apply Z.leb_gt in E; lia].
Qed.

Lemma binary_round_exact (s : bool) (p : positive) :
  Zpos p < 2 ^ 53 ->
  exists m e, binary_round 53 1024 s p 0 = S754_finite s m e /\
              e <= 0 /\ Zpos m = Zpos p * 2 ^ (- e).
Proof.
  intros H.
  pose proof (digits2_pos_bound p 53 ltac:(lia) H) as Hd.
  unfold binary_round.
  set (d := digits2_pos p) in *.
  assert (Hf : fexp 53 1024 (Zpos d + 0) = Zpos d - 53).
  { unfold fexp, emin. lia. }
  rewrite Hf. unfold shl_align.
  destruct (Zpos d - 53 - 0) as [|k|k] eqn:Ek; try lia.
  - exists p, 0. split; [|split; [lia | cbn; lia]].
    apply binary_round_aux_canonical; [unfold d in *; lia | lia].
  - exists (Pos.iter xO p k), (Zpos d - 53). split; [|split; [lia|]].
    + apply binary_round_aux_canonical; [|lia].
      rewrite iter_xO_digits. fold d. lia.
    + rewrite iter_xO_Z. f_equal. f_equal. lia.
Qed.

(** Converting an integer of magnitude below [2^53] to [double] is exact. *)
Lemma double_of_int_exact (v : Z) :
  - 2 ^ 53 < v < 2 ^ 53 -> double_integer (double_of_int v) = Some v.
Proof.
  intros H. unfold double_of_int, binary_normalize.
  destruct v as [|p|p]; [reflexivity| |].
  - destruct (binary_round_exact false p) as (m & e & -> & He & Hm); [lia|].
    cbn [double_integer cond_Zopp]. rewrite Hm.
    destruct (0 <=? e) eqn:E.
    + apply Z.leb_le in E. replace e with 0 by lia. cbn. f_equal. lia.
    + rewrite Z.mod_mul, Z.eqb_refl, Z.div_mul by (apply Z.pow_nonzero; lia).
      reflexivity.
  - destruct (binary_round_exact true p) as (m & e & -> & He & Hm); [lia|].
    cbn [double_integer cond_Zopp]. rewrite Hm.
    destruct (0 <=? e) eqn:E.
    + apply Z.leb_le in E. replace e with 0 by lia. cbn. f_equal. lia.
    + rewrite Z.mod_mul, Z.eqb_refl, Z.div_mul by (apply Z.pow_nonzero; lia).
      reflexivity.
Qed.

Lemma int_of_int64_range (v : Z) : - 2 ^ 31 <= int_of_int64 v < 2 ^ 31.
Proof.
  unfold int_of_int64.
  pose proof (Z.mod_pos_bound (v + 2 ^ 31) (2 ^ 32) ltac:(lia)). lia.
Qed.

(** On every integer array [get_vec] returns, element by element, the
    [double] that is exactly the input element reduced to a 32-bit
    two's complement [int]. *)
Theorem get_vec_integer_array_values (int_vec : list Z) :
  exists result,
    get_vec (PARAMETER_INTEGER_ARRAY int_vec) = Ok result /\
    map double_integer result = map (fun v => Some (int_of_int64 v)) int_vec.
Proof.
  eexists. split; [reflexivity|].
  rewrite map_map. apply map_ext. intros v.
  apply double_of_int_exact.
  pose proof (int_of_int64_range v). lia.
Qed.

(** On an integer array whose elements fit in an [int], [get_vec]
    returns, element by element, the [double] that is exactly the input
    element. *)
Theorem get_vec_integer_array_exact (int_vec : list Z) :
  Forall (fun v => - 2 ^ 31 <= v < 2 ^ 31) int_vec ->
  exists result,
    get_vec (PARAMETER_INTEGER_ARRAY int_vec) = Ok result /\
    map double_integer result = map Some int_vec.
Proof.
  intros H. eexists. split; [reflexivity|].
  rewrite map_map. apply map_ext_in. intros v Hv.
  rewrite Forall_forall in H. specialize (H v Hv).
  rewrite int_of_int64_small by exact H.
  apply double_of_int_exact. lia.
Qed.

Lemma get_vec_integer_array_exact_witness :
  exists result,
    get_vec (PARAMETER_INTEGER_ARRAY [-1; 0; 2147483647]) = Ok result /\
    map double_integer result = map Some [-1; 0; 2147483647].
Proof.
  apply (get_vec_integer_array_exact [-1; 0; 2147483647]).
  repeat constructor; lia.
Defined.

(** ** Configuration building: further properties *)

Lemma extract_names_from_no_match (p : string)
    (l : list (string * ParameterValue)) :
  (forall k v, In (k, v) l -> forall r, k <> (p ++ r)%string) ->
  forall acc, for_each (extract_names_body p) l acc = Ok acc.
Proof.
  induction l as [|[k v] l IH]; intros Hl acc; [reflexivity|].
  cbn [for_each]. rewrite extract_names_body_other.
  - cbn [bind]. apply IH. intros k' v' H. apply (Hl k' v'). now right.
  - apply (Hl k v). now left.
Qed.

Lemma extract_names_no_match (parameter_overrides : overrides) (p : string) :
  (forall k, StringMap.In k parameter_overrides ->
             forall r, k <> (p ++ r)%string) ->
  extract_names parameter_overrides p = Ok StringSet.empty.
Proof.
  intros H. unfold extract_names, extract_names_from.
  apply extract_names_from_no_match.
  intros k v Hin. apply H. exists v. now apply elements_In.
Qed.

(** A map none of whose keys begins with ["dynamics_configurations"],
    ["marker_configurations"] or ["rigid_bodies"] builds the empty
    configuration: no profile, no template, no object. *)
Theorem build_configuration_without_sections (parameter_overrides : overrides) :
  (forall k, StringMap.In k parameter_overrides ->
     forall r, k <> ("dynamics_configurations" ++ r)%string /\
               k <> ("marker_configurations" ++ r)%string /\
               k <> ("rigid_bodies" ++ r)%string) ->
  build_configuration parameter_overrides =
    Ok {| cfg_dynamicsConfigurations := [];
          cfg_markerConfigurations := [];
          cfg_objects := [] |}.
Proof.
  intros H. unfold build_configuration.
  rewrite !extract_names_no_match; [reflexivity | | |];
    intros k Hk r; now destruct (H k Hk r) as (? & ? & ?).
Qed.

Lemma build_configuration_without_sections_witness :
  build_configuration Examples.top_level_overrides =
    Ok {| cfg_dynamicsConfigurations := [];
          cfg_markerConfigurations := [];
          cfg_objects := [] |}.
Proof.
  apply (build_configuration_without_sections Examples.top_level_overrides).
  intros k H r. map_keys H; repeat split; discriminate.
Defined.

Lemma marker_index_is_dynamics_count_witness :
  exists dynamics_names,
    extract_names Examples.slow_fast_overrides "dynamics_configurations"
      = Ok dynamics_names /\
    Forall (fun o => markerConfigurationIdx o =
                     size_t (Z.of_nat (StringSet.cardinal dynamics_names)))
           (cfg_objects Examples.slow_fast_configuration).
Proof.
  apply (marker_index_is_dynamics_count Examples.slow_fast_overrides
           Examples.slow_fast_configuration).
  vm_compute. reflexivity.
Defined.

Lemma dynamics_reference_resolved_witness :
  exists dynamics_names,
    extract_names Examples.slow_fast_overrides "dynamics_configurations"
      = Ok dynamics_names /\
    (Z.of_nat (StringSet.cardinal dynamics_names) < 2 ^ 64 ->
     Forall2 (dynamics_profile_of Examples.slow_fast_overrides)
             (StringSet.elements dynamics_names)
             (cfg_dynamicsConfigurations Examples.slow_fast_configuration) /\
     Forall (dynamics_resolved Examples.slow_fast_overrides
               (StringSet.elements dynamics_names))
            (cfg_objects Examples.slow_fast_configuration)).
Proof.
  apply (dynamics_reference_resolved Examples.slow_fast_overrides
           Examples.slow_fast_configuration).
  vm_compute. reflexivity.
Defined.

Lemma In_elements_StringSet (s : StringSet.t) (x : string) :
  In x (StringSet.elements s) -> StringSet.In x s.
Proof.
  intros H. apply StringSet.elements_spec1. apply InA_alt.
  exists x. split; [reflexivity | exact H].
Qed.

Lemma rigid_body_loop_spec (parameter_overrides : overrides)
    (marker_map dynamics_map : StringMap.t Z) (names : list string) :
  forall objects objects',
    for_each (rigid_body_body parameter_overrides marker_map dynamics_map)
             names objects = Ok objects' ->
    exists built,
      objects' = (objects ++ built)%list /\
      Forall2 (rigid_body_of parameter_overrides) names built /\
      Forall (fun o => exists m,
                read_string parameter_overrides
                            ("rigid_bodies." ++ name o ++ ".marker")%string = Ok m /\
                StringMap.In m marker_map) built.
Proof.
  induction names as [|nm names IH]; intros objects objects' H;
    cbn [for_each] in H.
  - injection H as <-. exists []. now rewrite app_nil_r.
  - bind_named H as objects1 Hbody.
    unfold rigid_body_body in Hbody.
    bind_named Hbody as pos Hpos. bind_named Hbody as x Hx.
    bind_named Hbody as y Hy. bind_named Hbody as z Hz.
    bind_named Hbody as marker Hmarker. bind_named Hbody as dynamics Hdynamics.
    bind_named Hbody as mi Hmi. bind_named Hbody as di Hdi.
    injection Hbody as <-.
    destruct (IH _ _ H) as (built & -> & Hbuilt & Hmarkers).
    exists (Object_new mi di (Translation3f x y z) nm :: built).
    split; [now rewrite <- app_assoc|]. split.
    + constructor; [|exact Hbuilt].
      split; [reflexivity|]. split.
      * destruct pos as [|x' [|y' [|z' rest]]]; try discriminate.
        cbn in Hx, Hy, Hz. injection Hx as <-. injection Hy as <-.
        injection Hz as <-. now exists x', y', z', rest.
      * now exists marker, dynamics.
    + constructor; [|exact Hmarkers].
      exists marker. split; [exact Hmarker|].
      exists mi. now apply at_Ok.
Qed.

(** In every configuration that is built there is exactly one object for
    each name under [rigid_bodies], in the order of the names; it carries
    that name, starts at the translation given by the first three elements
    of its [initial_position], and its [marker] and [dynamics] keys are
    strings. *)
Theorem objects_follow_rigid_body_names
    (parameter_overrides : overrides) (cfg : Configuration) :
  build_configuration parameter_overrides = Ok cfg ->
  exists rigid_body_names,
    extract_names parameter_overrides "rigid_bodies" = Ok rigid_body_names /\
    Forall2 (rigid_body_of parameter_overrides)
            (StringSet.elements rigid_body_names) (cfg_objects cfg).
Proof.
  intros H. unfold build_configuration in H.
  bind_named H as dynamics_names Hdn. bind_named H as dyn Hdyn.
  bind_named H as marker_names Hmn. bind_named H as mk Hmk.
  bind_named H as body_names Hbn. bind_named H as objects Hobjs.
  injection H as <-. cbn [cfg_objects].
  exists body_names. split; [exact Hbn|].
  destruct (rigid_body_loop_spec _ _ _ _ _ _ Hobjs) as (built & -> & Hbuilt & _).
  exact Hbuilt.
Qed.

Lemma objects_follow_rigid_body_names_witness :
  exists rigid_body_names,
    extract_names Examples.slow_fast_overrides "rigid_bodies"
      = Ok rigid_body_names /\
    Forall2 (rigid_body_of Examples.slow_fast_overrides)
            (StringSet.elements rigid_body_names)
            (cfg_objects Examples.slow_fast_configuration).
Proof.
  apply (objects_follow_rigid_body_names Examples.slow_fast_overrides
           Examples.slow_fast_configuration).
  vm_compute. reflexivity.
Defined.

Lemma marker_loop_keys (parameter_overrides : overrides) (i : Z)
    (names : list string) :
  forall st st',
    for_each (marker_body parameter_overrides i) names st = Ok st' ->
    forall k, StringMap.In k (marker_name_to_index st') ->
              In k names \/ StringMap.In k (marker_name_to_index st).
Proof.
  induction names as [|nm names IH]; intros st st' H k Hk; cbn [for_each] in H.
  - injection H as <-. now right.
  - bind_named H as st1 Hbody.
    destruct (IH _ _ H k Hk) as [Hin | Hin]; [left; now right|].
    unfold marker_body in Hbody.
    bind_named Hbody as offset Hoffset. bind_named Hbody as cloud Hcloud.
    injection Hbody as <-. cbn [marker_name_to_index] in Hin.
    apply StringMapFacts.add_in_iff in Hin.
    destruct Hin as [<- | Hin]; [left; now left | now right].
Qed.

(** In every configuration that is built, the marker configuration that a
    rigid body names exists: the name is one of those found under
    [marker_configurations]. *)
Theorem marker_reference_exists
    (parameter_overrides : overrides) (cfg : Configuration) :
  build_configuration parameter_overrides = Ok cfg ->
  exists marker_names,
    extract_names parameter_overrides "marker_configurations" = Ok marker_names /\
    Forall (marker_named parameter_overrides marker_names) (cfg_objects cfg).
Proof.
  intros H. unfold build_configuration in H.
  bind_named H as dynamics_names Hdn. bind_named H as dyn Hdyn.
  bind_named H as marker_names Hmn. bind_named H as mk Hmk.
  bind_named H as body_names Hbn. bind_named H as objects Hobjs.
  injection H as <-. cbn [cfg_objects].
  exists marker_names. split; [exact Hmn|].
  destruct (rigid_body_loop_spec _ _ _ _ _ _ Hobjs) as (built & -> & _ & Hm).
  cbn [app]. revert Hm. apply Forall_impl.
  intros o (m & Hread & Hin). exists m. split; [exact Hread|].
  destruct (marker_loop_keys _ _ _ _ _ Hmk m Hin) as [Hnames | Hempty].
  - now apply In_elements_StringSet.
  - cbn [marker_name_to_index] in Hempty.
    now apply StringMapFacts.empty_in_iff in Hempty.
Qed.

Lemma marker_reference_exists_witness :
  exists marker_names,
    extract_names Examples.slow_fast_overrides "marker_configurations"
      = Ok marker_names /\
    Forall (marker_named Examples.slow_fast_overrides marker_names)
           (cfg_objects Examples.slow_fast_configuration).
Proof.
  apply (marker_reference_exists Examples.slow_fast_overrides
           Examples.slow_fast_configuration).
  vm_compute. reflexivity.
Defined.




Lemma bind_defined {A B : Type} (m : outcome A) (k : A -> outcome B) :
  defined m -> (forall a, m = Ok a -> defined (k a)) -> defined (bind m k).
Proof.
  unfold defined. destruct m; cbn; intros Hm Hk; [now apply Hk | discriminate | congruence].
Qed.

Lemma at_defined {V : Type} (m : StringMap.t V) (k : string) : defined (at_ m k).
Proof. unfold defined, at_. destruct (StringMap.find k m); discriminate. Qed.

Lemma get_vec_defined (p : ParameterValue) : defined (get_vec p).
Proof. unfold defined. destruct p; discriminate. Qed.

Lemma read_vec_defined (m : overrides) (k : string) : defined (read_vec m k).
Proof.
  unfold read_vec. apply bind_defined; [apply at_defined|].
  intros a _. apply get_vec_defined.
Qed.

Lemma read_double_defined (m : overrides) (k : string) : defined (read_double m k).
Proof.
  unfold read_double. apply bind_defined; [apply at_defined|].
  intros a _. unfold defined. destruct a; discriminate.
Qed.

Lemma vec_at_defined {A : Type} (v : list A) (n : nat) : defined (vec_at v n).
Proof. unfold defined, vec_at. destruct (nth_error v n); discriminate. Qed.

Lemma extract_names_from_defined (p : string)
    (l : list (string * ParameterValue)) :
  forall acc, defined (for_each (extract_names_body p) l acc).
Proof.
  induction l as [|a l IH]; intros acc; [discriminate|].
  cbn [for_each].
  destruct (extract_names_body_outcome p acc a) as [[s ->] | ->];
    [apply IH | discriminate].
Qed.

Lemma stored_length {A : Type} (v : list A) (i : nat) (a : A) :
  (i < length v)%nat ->
  length (firstn i v ++ a :: skipn (S i) v) = length v.
Proof.
  intros H. rewrite length_app, length_firstn. cbn [length].
  rewrite length_skipn. lia.
Qed.

(** The dynamics loop stays inside the vector it fills. *)
Lemma dynamics_loop_defined (parameter_overrides : overrides)
    (names : list string) :
  forall st,
    0 <= dyn_i st ->
    dyn_i st + Z.of_nat (length names)
      <= Z.of_nat (length (dynamicsConfigurations st)) ->
    Z.of_nat (length (dynamicsConfigurations st)) < 2 ^ 64 ->
    defined (for_each (dynamics_body parameter_overrides) names st).
Proof.
  induction names as [|nm names IH]; intros st Hi Hlen Hmax; [discriminate|].
  cbn [for_each length] in *.
  apply bind_defined.
  - unfold dynamics_body.
    repeat (apply bind_defined;
            [ first [ apply read_vec_defined | apply read_double_defined
                    | apply vec_at_defined ]
            | intros ? _ ]).
    apply bind_defined; [|discriminate].
    unfold defined, vec_store.
    destruct (0 <=? dyn_i st) eqn:E1; [|apply Z.leb_gt in E1; lia].
    destruct (dyn_i st <? Z.of_nat (length (dynamicsConfigurations st))) eqn:E2;
      [discriminate | apply Z.ltb_ge in E2; lia].
  - intros st1 Hbody. unfold dynamics_body in Hbody.
    repeat (bind_inv Hbody).
    match goal with
    | Hs : vec_store _ _ _ = Ok _ |- _ =>
        apply vec_store_Ok in Hs; destruct Hs as [Hr ->]
    end.
    injection Hbody as <-.
    assert (Hi1 : size_t (dyn_i st + 1) = dyn_i st + 1).
    { unfold size_t. apply Z.mod_small. lia. }
    assert (Hnat : (Z.to_nat (dyn_i st)
                    < length (dynamicsConfigurations st))%nat) by lia.
    apply IH; cbn [dyn_i dynamicsConfigurations];
      rewrite ?Hi1, ?(stored_length _ _ _ Hnat); lia.
Qed.


Lemma extract_names_from_cardinal (p : string)
    (l : list (string * ParameterValue)) :
  forall acc s,
    for_each (extract_names_body p) l acc = Ok s ->
    (StringSet.cardinal s <= StringSet.cardinal acc + length l)%nat.
Proof.
  induction l as [|a l IH]; intros acc s H; cbn [for_each] in H.
  - injection H as <-. cbn. lia.
  - bind_named H as acc1 Hbody. apply IH in H. cbn [length].
    assert (StringSet.cardinal acc1 <= S (StringSet.cardinal acc))%nat; [|lia].
    unfold extract_names_body in Hbody.
    destruct (find (fst a) p 0 =? 0).
    + bind_named Hbody as tok Htok. injection Hbody as <-.
      destruct (StringSetProps.In_dec tok acc) as [Hin | Hnot].
      * rewrite (StringSetProps.add_cardinal_1 Hin). lia.
      * rewrite (StringSetProps.add_cardinal_2 Hnot). lia.
    + injection Hbody as <-. lia.
Qed.

Lemma extract_names_cardinal (parameter_overrides : overrides) (p : string)
    (names : StringSet.t) :
  extract_names parameter_overrides p = Ok names ->
  (length (StringSet.elements names) <= StringMap.cardinal parameter_overrides)%nat.
Proof.
  intros H. apply extract_names_from_cardinal in H.
  rewrite <- StringSet.cardinal_spec.
  rewrite StringMap.cardinal_1.
  rewrite StringSetProps.empty_cardinal in H. exact H.
Qed.

Lemma get_vec_three (v : ParameterValue) (points : list double) :
  match v with
  | PARAMETER_INTEGER_ARRAY l => (3 <= length l)%nat
  | PARAMETER_DOUBLE_ARRAY l => (3 <= length l)%nat
  | _ => True
  end ->
  get_vec v = Ok points -> (3 <= length points)%nat.
Proof.
  destruct v; cbn; intros H E; try discriminate; injection E as <-;
    [now rewrite length_map | exact H].
Qed.

Lemma read_vec_three (parameter_overrides : overrides) (key : string)
    (v : list double) :
  arrays_have_three parameter_overrides ->
  read_vec parameter_overrides key = Ok v -> (3 <= length v)%nat.
Proof.
  intros Harr H. unfold read_vec in H. bind_named H as pv Hpv.
  apply at_Ok in Hpv. exact (get_vec_three pv v (Harr _ _ Hpv) H).
Qed.

Lemma vec_index_defined {A : Type} (v : list A) (n : nat) :
  (n < length v)%nat -> defined (vec_index v n).
Proof.
  intros H. unfold defined, vec_index.
  destruct (nth_error v n) eqn:E; [discriminate|].
  apply nth_error_None in E. lia.
Qed.

Lemma for_each_defined {A S : Type} (body : S -> A -> outcome S) (l : list A) :
  (forall s a, In a l -> defined (body s a)) ->
  forall s, defined (for_each body l s).
Proof.
  induction l as [|a l IH]; intros H s; [discriminate|].
  cbn [for_each]. apply bind_defined.
  - apply H. now left.
  - intros s' _. apply IH. intros s0 a0 Hin. apply H. now right.
Qed.

Lemma read_string_defined (m : overrides) (k : string) : defined (read_string m k).
Proof.
  unfold read_string. apply bind_defined; [apply at_defined|].
  intros a _. unfold defined. destruct a; discriminate.
Qed.

(** Undefined behaviour in the configuration building can only come from
    an array of fewer than three elements: when every array of the map has
    at least three, [build_configuration] returns a configuration or
    throws. *)
Theorem build_configuration_defined (parameter_overrides : overrides) :
  Z.of_nat (StringMap.cardinal parameter_overrides) < 2 ^ 64 ->
  arrays_have_three parameter_overrides ->
  defined (build_configuration parameter_overrides).
Proof.
  intros Hcard Harr. unfold build_configuration.
  apply bind_defined; [apply extract_names_from_defined|].
  intros dynamics_names Hdn. apply bind_defined.
  { assert (Hc : (@length string (StringSet.elements dynamics_names)
                  <= StringMap.cardinal parameter_overrides)%nat)
      by exact (extract_names_cardinal _ _ _ Hdn).
    set (n := @length string (StringSet.elements dynamics_names)) in *.
    apply dynamics_loop_defined; cbn [dyn_i dynamicsConfigurations];
      rewrite ?repeat_length;
      change (@length StringSet.elt (StringSet.elements dynamics_names)) with n;
      lia. }
  intros dyn _. apply bind_defined; [apply extract_names_from_defined|].
  intros marker_names _. apply bind_defined.
  { apply for_each_defined. intros st nm _. unfold marker_body.
    apply bind_defined; [apply read_vec_defined|].
    intros offset Hoffset. apply read_vec_three in Hoffset; [|exact Harr].
    apply bind_defined; [|discriminate].
    apply for_each_defined. intros cloud [k pv] Hin.
    unfold marker_points_body. cbn [fst snd].
    destruct (find k _ 0 =? 0); [|discriminate].
    apply bind_defined; [apply get_vec_defined|].
    intros points Hpoints.
    apply get_vec_three in Hpoints;
      [|apply (Harr k); now apply elements_In].
    repeat (apply bind_defined;
            [apply vec_index_defined; lia | intros ? _]).
    discriminate. }
  intros mk _. apply bind_defined; [apply extract_names_from_defined|].
  intros body_names _. apply bind_defined; [|discriminate].
  apply for_each_defined. intros objects nm _. unfold rigid_body_body.
  apply bind_defined; [apply read_vec_defined|].
  intros pos Hpos. apply read_vec_three in Hpos; [|exact Harr].
  repeat (apply bind_defined;
          [apply vec_index_defined; lia | intros ? _]).
  repeat (apply bind_defined; [apply read_string_defined | intros ? _]).
  repeat (apply bind_defined; [apply at_defined | intros ? _]).
  discriminate.
Qed.

Lemma build_configuration_defined_witness :
  defined (build_configuration Examples.unresolved_overrides).
Proof.
  apply (build_configuration_defined Examples.unresolved_overrides).
  - reflexivity.
  - intros k v H. apply elements_In in H. vm_compute in H.
    repeat (destruct H as [H | H]; [injection H as <- <-; cbn; try lia; exact I|]).
    destruct H.
Defined.

(** ** The frame loop: further properties *)

Lemma memcpy_full (dst src : list Z) :
  length dst = length src -> memcpy dst src (Z.of_nat (length dst)) = src.
Proof.
  intros H. unfold memcpy. rewrite Nat2Z.id.
  rewrite skipn_all, app_nil_r. rewrite H. apply firstn_all.
Qed.

Lemma fill_cloud_data (time : Time) (pointcloud : list Vector3f) (m : PointCloud2) :
  rows pointcloud * 12 < 2 ^ 64 ->
  pc_data (fill_cloud time pointcloud m) = pointcloud_data pointcloud.
Proof.
  intros H. assert (H0 : 0 <= rows pointcloud) by (unfold rows; lia).
  unfold fill_cloud. cbn [pc_data].
  assert (Hs : size_t (rows pointcloud * 3 * 4) = rows pointcloud * 12).
  { unfold size_t. rewrite Z.mod_small; lia. }
  rewrite Hs. apply memcpy_full.
  pose proof (length_resize (pc_data m) (rows pointcloud * 12)) as Hr.
  pose proof (length_pointcloud_data pointcloud) as Hd. lia.
Qed.

Section FrameLoopFurther.

Context {TR : ObjectTrackerOps} {EI : EigenOps}.
Variable env : Env.

(** The data of the cloud message of a cycle are the bytes of the matrix
    captured in that cycle, nothing of what the message held before. *)
Theorem cloud_data_is_current_frame (w : World) :
  rows (pointCloud (cycle_frame env w)) * 12 < 2 ^ 64 ->
  pc_data (msgPointCloud (exec (cycle env) w)) =
  pointcloud_data (pointCloud (cycle_frame env w)).
Proof.
  intros H. rewrite cycle_exec. cbn [msgPointCloud].
  now apply fill_cloud_data.
Qed.

(** In every cycle the marker list is rebuilt from the captured cloud, row
    by row and in order, and the tracker is updated once, with that list;
    what the list held before plays no part. *)
Theorem tracker_fed_current_cloud (w : World) :
  let w' := exec (cycle env) w in
  markers w' = map marker_of_row (pointCloud (cycle_frame env w)) /\
  tracker w' = fst (tracker_update (tracker w) (markers w')) /\
  mocap w' = cycle_frame env w.
Proof.
  intros w'. unfold w'. rewrite cycle_exec. repeat split.
Qed.

(** The events of a cycle come in this order: the cloud message, the
    warnings that the tracker logs during its update, the warnings about
    bodies without a pose, the batch of transforms when it is not empty,
    the spin. *)
Theorem cycle_event_order (w : World) :
  let w' := exec (cycle env) w in
  exists warnings batch,
    snd (tracker_update (tracker w)
           (map marker_of_row (pointCloud (cycle_frame env w)))) = warnings /\
    (batch = [] \/ batch = [SendTransform (transforms w')]) /\
    cycle_events w w' =
      (PublishPointCloud (msgPointCloud w')
       :: map LogWarn warnings
       ++ stale_warnings (cycle_chrono env w) (tracker_objects (tracker w'))
       ++ batch ++ [SpinSome])%list.
Proof.
  intros w'. unfold w'. rewrite cycle_events_exec, cycle_exec.
  cbn [msgPointCloud transforms tracker].
  eexists. eexists. split; [reflexivity|]. split; [|reflexivity].
  match goal with
  | |- context [if ?b then _ else _] => destruct b
  end; [now right | now left].
Qed.

Lemma length_tracked_transforms (time : Time) (objs : list Object) :
  length (tracked_transforms time objs) =
  length (filter lastTransformationValid objs).
Proof.
  induction objs as [|o objs IH]; [reflexivity|].
  cbn [tracked_transforms flat_map filter].
  destruct (lastTransformationValid o); cbn [app length]; [f_equal|]; exact IH.
Qed.

(** The batch of a cycle has one transform for each body that the backend
    reports and one for each tracked body with a valid fit; it is sent
    exactly when it has a transform, and no more than once. *)
Theorem batch_size_and_sending (w : World) :
  let w' := exec (cycle env) w in
  let n := (StringMap.cardinal (rigidBodies (cycle_frame env w))
            + length (filter lastTransformationValid
                             (tracker_objects (tracker w'))))%nat in
  length (transforms w') = n /\
  (n = 0%nat -> filter is_batch (cycle_events w w') = []) /\
  (n <> 0%nat ->
   filter is_batch (cycle_events w w') = [SendTransform (transforms w')]).
Proof.
  intros w' n.
  assert (Hlen : length (transforms w') = n).
  { subst n w'. rewrite cycle_exec. cbn [transforms tracker].
    rewrite length_app, length_tracked_transforms.
    unfold backend_transforms. rewrite length_map, StringMap.cardinal_1.
    reflexivity. }
  split; [exact Hlen|].
  assert (Hev : filter is_batch (cycle_events w w') =
                if 0 <? Z.of_nat (length (transforms w'))
                then [SendTransform (transforms w')] else []).
  { unfold w'. rewrite cycle_events_exec, cycle_exec. cbn [transforms].
    cbn [app filter is_batch].
    rewrite !filter_app, filter_stale_warnings_none by reflexivity.
    rewrite filter_map_LogWarn by reflexivity.
    match goal with
    | |- context [if ?b then _ else _] => destruct b
    end; reflexivity. }
  rewrite Hev, Hlen. split; intros Hn.
  - rewrite Hn. reflexivity.
  - destruct (0 <? Z.of_nat n) eqn:E; [reflexivity | apply Z.ltb_ge in E; lia].
Qed.

End FrameLoopFurther.

Lemma cloud_data_is_current_frame_witness :
  pc_data (msgPointCloud
             (exec (cycle (TR := Examples.idle_tracker)
                          (EI := Examples.identity_rotation)
                          Examples.one_marker_env)
                   (init_world Examples.empty_configuration))) =
  pointcloud_data
    (pointCloud (cycle_frame Examples.one_marker_env
                   (init_world (TR := Examples.idle_tracker)
                               Examples.empty_configuration))).
Proof.
  apply (cloud_data_is_current_frame (TR := Examples.idle_tracker)
           (EI := Examples.identity_rotation) Examples.one_marker_env
           (init_world Examples.empty_configuration)).
  reflexivity.
Defined.

Section FrameLoopRuns.

Context {TR : ObjectTrackerOps} {EI : EigenOps}.
Variable env : Env.

(** [n] cycles wait for [n] frames and read each clock [n] times. *)
Theorem run_counters (n : nat) (w : World) :
  frames_waited (run env n w) = (frames_waited w + n)%nat /\
  wall_reads (run env n w) = (wall_reads w + n)%nat /\
  chrono_reads (run env n w) = (chrono_reads w + n)%nat.
Proof.
  induction n as [|n (IH1 & IH2 & IH3)].
  - cbn [run]. repeat split; lia.
  - cbn [run]. rewrite cycle_exec.
    cbn [frames_waited wall_reads chrono_reads]. repeat split; lia.
Qed.

Lemma flat_map_LogWarn {B : Type} (f : Event -> list B) (l : list string) :
  (forall s, f (LogWarn s) = []) -> flat_map f (map LogWarn l) = [].
Proof.
  intros H. induction l as [|s l IH]; [reflexivity|].
  cbn [map flat_map]. now rewrite H, IH.
Qed.

Lemma flat_map_stale_warnings {B : Type} (f : Event -> list B)
    (chrono_now : time_point) (objs : list Object) :
  (forall n d, f (WarnNoUpdatedPose n d) = []) ->
  flat_map f (stale_warnings chrono_now objs) = [].
Proof.
  intros H. induction objs as [|o objs IH]; [reflexivity|].
  cbn [stale_warnings flat_map]. destruct (lastTransformationValid o).
  - exact IH.
  - cbn [app flat_map]. rewrite H. exact IH.
Qed.

Lemma cycle_clouds (w : World) :
  let evs := cycle_events w (exec (cycle env) w) in
  cloud_stamps evs = [cycle_time env w] /\
  cloud_widths evs = [uint32 (rows (pointCloud (cycle_frame env w)))] /\
  filter is_spin evs = [SpinSome].
Proof.
  intros evs. unfold evs. rewrite cycle_events_exec.
  unfold cloud_stamps, cloud_widths.
  rewrite !flat_map_app, !filter_app.
  rewrite !flat_map_LogWarn, !flat_map_stale_warnings by reflexivity.
  rewrite filter_map_LogWarn, filter_stale_warnings_none by reflexivity.
  match goal with
  | |- context [if ?b then _ else _] => destruct b
  end; repeat split.
Qed.

Lemma cycle_trace (w : World) :
  trace (exec (cycle env) w) =
  (trace w ++ cycle_events w (exec (cycle env) w))%list.
Proof.
  rewrite cycle_events_exec, cycle_exec. reflexivity.
Qed.

(** Nothing is ever removed from the trace, and [n] cycles add to it, in
    order, [n] cloud messages and [n] spins; the k-th of these clouds is
    stamped with the k-th reading of the wall clock and its width is the
    number of rows of the k-th frame, as a 32-bit number. *)
Theorem run_clouds (n : nat) (w : World) :
  exists evs,
    trace (run env n w) = (trace w ++ evs)%list /\
    cloud_stamps evs = map (env_wall env) (List.seq (wall_reads w) n) /\
    cloud_widths evs =
      map (fun k => uint32 (rows (pointCloud (env_frame env k))))
          (List.seq (frames_waited w) n) /\
    length (filter is_spin evs) = n.
Proof.
  induction n as [|n (evs & Htrace & Hstamps & Hwidths & Hspin)].
  - exists []. cbn [run List.seq map]. rewrite app_nil_r. repeat split.
  - destruct (run_counters n w) as (Hf & Hw & _).
    destruct (cycle_clouds (run env n w)) as (Hs1 & Hw1 & Hp1).
    exists (evs ++ cycle_events (run env n w) (exec (cycle env) (run env n w)))%list.
    cbn [run]. rewrite cycle_trace, Htrace, <- app_assoc.
    split; [reflexivity|].
    unfold cloud_stamps, cloud_widths in *.
    rewrite !flat_map_app, filter_app, length_app, !seq_S, !map_app.
    rewrite Hs1, Hw1, Hp1, Hstamps, Hwidths, Hspin.
    unfold cycle_time, cycle_frame. rewrite Hf, Hw. cbn [map length].
    repeat split. lia.
Qed.

Lemma msgPointCloud_run_flags (cfg : Configuration) (n : nat) :
  let m := msgPointCloud (run env n (init_world cfg)) in
  pc_height m = 1 /\ pc_is_dense m = true /\ pc_is_bigendian m = false /\
  pc_point_step m = 12.
Proof.
  induction n as [|n IH]; [repeat split|].
  cbn [run]. rewrite cycle_exec. cbn [msgPointCloud].
  unfold fill_cloud.
  cbn [pc_height pc_is_dense pc_is_bigendian pc_point_step].
  exact IH.
Qed.

(** The cloud message of every cycle is one dense little-endian row:
    height 1, and, the data fitting the 32-bit field, a row step equal to
    the width times the point step. *)
Theorem cloud_row_step (cfg : Configuration) (n : nat) :
  let m := msgPointCloud (run env (S n) (init_world cfg)) in
  rows (pointCloud (env_frame env n)) * 12 < 2 ^ 32 ->
  pc_row_step m = pc_width m * pc_point_step m /\
  pc_height m = 1 /\ pc_is_dense m = true /\ pc_is_bigendian m = false.
Proof.
  intros m H.
  destruct (msgPointCloud_run_flags cfg (S n)) as (Hh & Hd & Hb & Hs).
  fold m in Hh, Hd, Hb, Hs. rewrite Hs. repeat split; try assumption.
  unfold m. cbn [run]. rewrite cycle_exec. cbn [msgPointCloud].
  assert (Hframe : cycle_frame env (run env n (init_world cfg)) = env_frame env n).
  { unfold cycle_frame. now rewrite frames_waited_run, Nat.add_0_r. }
  rewrite Hframe.
  set (pc := pointCloud (env_frame env n)) in *.
  assert (H0 : 0 <= rows pc) by (unfold rows; lia).
  destruct (fill_cloud_size (cycle_time env (run env n (init_world cfg))) pc
              (msgPointCloud (run env n (init_world cfg)))) as [Hw Hlen]; [lia|].
  rewrite Hw. unfold fill_cloud in *. cbn [pc_row_step pc_data] in *.
  rewrite Hlen. unfold uint32. apply Z.mod_small. lia.
Qed.

(** When the configuration builds, [main] enters the loop, and after [n]
    iterations it has waited for [n] frames and published [n] cloud
    messages, stamped with the first [n] readings of the wall clock. *)
Theorem main_runs_cycles (parameter_overrides : overrides)
    (cfg : Configuration) (n : nat) :
  build_configuration parameter_overrides = Ok cfg ->
  exists w,
    main env parameter_overrides n = Ok w /\
    frames_waited w = n /\
    cloud_stamps (trace w) = map (env_wall env) (List.seq 0 n).
Proof.
  intros H. unfold main. rewrite H. cbn [bind].
  eexists. split; [reflexivity|]. split.
  - destruct (run_counters n (init_world cfg)) as (Hf & _). exact Hf.
  - destruct (run_clouds n (init_world cfg)) as (evs & Htrace & Hstamps & _).
    rewrite Htrace. exact Hstamps.
Qed.

End FrameLoopRuns.

Lemma cloud_row_step_witness :
  rows (pointCloud (env_frame Examples.one_marker_env 0)) * 12 < 2 ^ 32 /\
  let m := msgPointCloud
             (run (TR := Examples.idle_tracker) (EI := Examples.identity_rotation)
                  Examples.one_marker_env 1
                  (init_world Examples.empty_configuration)) in
  pc_row_step m = pc_width m * pc_point_step m /\
  pc_height m = 1 /\ pc_is_dense m = true /\ pc_is_bigendian m = false.
Proof.
  split; [reflexivity|].
  apply (cloud_row_step (TR := Examples.idle_tracker)
           (EI := Examples.identity_rotation)
           Examples.one_marker_env Examples.empty_configuration 0).
  reflexivity.
Defined.

Lemma main_runs_cycles_witness :
  exists w,
    main (TR := Examples.idle_tracker) (EI := Examples.identity_rotation)
         Examples.one_marker_env Examples.slow_fast_overrides 2 = Ok w /\
    frames_waited w = 2%nat /\
    cloud_stamps (trace w) = map (env_wall Examples.one_marker_env) (List.seq 0 2).
Proof.
  apply (main_runs_cycles (TR := Examples.idle_tracker)
           (EI := Examples.identity_rotation) Examples.one_marker_env
           Examples.slow_fast_overrides Examples.slow_fast_configuration 2).
  vm_compute. reflexivity.
Defined.

Lemma rigid_body_body_unresolved_witness :
  rigid_body_body Examples.unresolved_overrides
    (StringMap.add "m1" 1 (StringMap.empty Z))
    (StringMap.add "fast" 0 (StringMap.empty Z)) [] "cf1"
  = Throw out_of_range.
Proof.
  apply (rigid_body_body_unresolved Examples.unresolved_overrides
           (StringMap.add "m1" 1 (StringMap.empty Z))
           (StringMap.add "fast" 0 (StringMap.empty Z)) [] "cf1" "m1" "quick"
           (double_of_int 0) (double_of_int 0) (double_of_int 0) []).
  - reflexivity.
  - reflexivity.
  - reflexivity.
  - right. intros [v H]. apply StringMap.find_1 in H. discriminate H.
Defined.

(** ** Integers through [double] addition and [float] storage *)

Lemma iter_pos_iter {A : Type} (f : A -> A) (n : positive) (x : A) :
  iter_pos f n x = Pos.iter f x n.
Proof.
  revert x. induction n as [n IH | n IH |]; intros x; cbn [iter_pos Pos.iter].
  - rewrite !IH. rewrite !Pos.iter_swap. reflexivity.
  - now rewrite !IH.
  - reflexivity.
Qed.

Lemma shr_1_iter_xO (j q : positive) :
  iter_pos shr_1 j (Build_shr_record (Zpos (Pos.iter xO q j)) false false)
  = Build_shr_record (Zpos q) false false.
Proof.
  rewrite iter_pos_iter. revert q. induction j using Pos.peano_ind; intros q.
  - reflexivity.
  - rewrite !Pos.iter_succ, <- Pos.iter_swap.
    cbn [shr_1 orb]. apply IHj.
Qed.

Lemma pos_shift_eq (p n : positive) (k : Z) :
  0 <= k -> Zpos p = Zpos n * 2 ^ k ->
  match k with Zpos j => p = Pos.iter xO n j | _ => p = n end.
Proof.
  intros Hk H. destruct k as [|j|j]; [| |lia].
  - change (2 ^ 0) with 1 in H. lia.
  - apply Pos2Z.inj. now rewrite iter_xO_Z.
Qed.

Section Exact.


Variables prec emax : Z.
Hypothesis Hprec : 0 < prec.
Hypothesis Hemax : prec < emax.

Lemma binary_round_aux_shift (s : bool) (p m : positive) (e e' j : Z) :
  0 <= j -> e' = e + j -> Zpos p = Zpos m * 2 ^ j ->
  Zpos (digits2_pos m) = prec ->
  3 - emax - prec <= e + j <= emax - prec ->
  binary_round_aux prec emax s (Zpos p) e loc_Exact = S754_finite s m e'.
Proof.
  intros Hj -> Hp Hd He.
  pose proof (pos_shift_eq p m j Hj Hp) as Hshape.
  assert (Hdp : Zpos (digits2_pos p) = prec + j).
  { destruct j as [|j|j]; try lia.
    - subst p. lia.
    - subst p. rewrite iter_xO_digits. lia. }
  assert (Hshr : shr_fexp prec emax (Zpos p) e loc_Exact
                 = (Build_shr_record (Zpos m) false false, e + j)).
  { unfold shr_fexp. cbn [Zdigits2]. rewrite Hdp.
    replace (fexp prec emax (prec + j + e) - e) with j
      by (unfold fexp, emin; lia).
    unfold shr. cbn [shr_record_of_loc].
    destruct j as [|j|j]; try lia.
    - subst p. f_equal. lia.
    - subst p. now rewrite shr_1_iter_xO. }
  assert (Hshr2 : shr_fexp prec emax (Zpos m) (e + j) loc_Exact
                  = (Build_shr_record (Zpos m) false false, e + j)).
  { unfold shr_fexp. cbn [Zdigits2]. rewrite Hd.
    replace (fexp prec emax (prec + (e + j)) - (e + j)) with 0
      by (unfold fexp, emin; lia).
    reflexivity. }
  unfold binary_round_aux. rewrite Hshr.
  cbn [shr_m loc_of_shr_record shr_r shr_s round_nearest_even].
  rewrite Hshr2. cbn [shr_m].
  destruct (e + j <=? emax - prec) eqn:E; [reflexivity | apply Z.leb_gt in E; lia].
Qed.

Lemma binary_round_integer (s : bool) (p n : positive) (k : Z) :
  0 <= k -> Zpos p = Zpos n * 2 ^ k -> Zpos n < 2 ^ prec ->
  binary_round prec emax s p (- k) = canonical_int prec s n.
Proof.
  intros Hk Hp Hn.
  pose proof (digits2_pos_bound n prec ltac:(lia) Hn) as Hdn.
  pose proof (pos_shift_eq p n k Hk Hp) as Hshape.
  set (dn := digits2_pos n) in *.
  assert (Hdp : Zpos (digits2_pos p) = Zpos dn + k).
  { destruct k as [|j|j]; try lia.
    - subst p. fold dn. lia.
    - subst p. rewrite iter_xO_digits. fold dn. lia. }
  unfold binary_round. rewrite Hdp.
  replace (fexp prec emax (Zpos dn + k + - k)) with (Zpos dn - prec)
    by (unfold fexp, emin; lia).
  set (t := prec - Zpos dn) in *.
  assert (Hm : Zpos (Z.to_pos (Zpos n * 2 ^ t)) = Zpos n * 2 ^ t).
  { apply Z2Pos.id. apply Z.mul_pos_pos; [lia|]. apply Z.pow_pos_nonneg; lia. }
  assert (Hdm : Zpos (digits2_pos (Z.to_pos (Zpos n * 2 ^ t))) = prec).
  { pose proof (pos_shift_eq _ n t ltac:(lia) Hm) as Hs.
    destruct t as [|t'|t'] eqn:Et; try lia.
    - rewrite Hs. fold dn. lia.
    - rewrite Hs, iter_xO_digits. fold dn. lia. }
  unfold canonical_int. fold dn. fold t.
  unfold shl_align.
  destruct (Zpos dn - prec - - k) as [|u|u] eqn:Eu.
  - apply binary_round_aux_shift with (j := 0); try lia.
    rewrite Hm, Hp. replace t with k by (unfold t; lia).
    rewrite Z.pow_0_r. ring.
  - apply binary_round_aux_shift with (j := Zpos u); try lia.
    rewrite Hm, Hp. replace k with (t + Zpos u) by (unfold t; lia).
    rewrite Z.pow_add_r by (unfold t; lia). ring.
  - apply binary_round_aux_shift with (j := 0); try lia.
    rewrite Hm, iter_xO_Z, Hp. replace t with (k + Zpos u) by (unfold t; lia).
    rewrite Z.pow_add_r by lia. rewrite Z.pow_0_r. ring.
Qed.


Lemma binary_round_scaled (s : bool) (p n : positive) (e : Z) :
  is_scaled (Zpos p) e (Zpos n) -> Zpos n < 2 ^ prec ->
  binary_round prec emax s p e = canonical_int prec s n.
Proof.
  intros [[He Hv] | [He Hv]] Hn.
  - destruct e as [|j|j]; [| |lia].
    + replace 0 with (- 0) by reflexivity.
      apply binary_round_integer; [lia | | exact Hn].
      rewrite Z.pow_0_r in *. lia.
    + pose proof (digits2_pos_bound n prec ltac:(lia) Hn) as Hdn.
      assert (Hshape : n = Pos.iter xO p j)
        by (apply Pos2Z.inj; now rewrite iter_xO_Z).
      assert (Hd : Zpos (digits2_pos n) = Zpos (digits2_pos p) + Zpos j)
        by (rewrite Hshape, iter_xO_digits; lia).
      set (dn := digits2_pos n) in *.
      unfold binary_round. rewrite <- Hd.
      replace (fexp prec emax (Zpos dn)) with (Zpos dn - prec)
        by (unfold fexp, emin; lia).
      set (t := prec - Zpos dn) in *.
      assert (Hm : Zpos (Z.to_pos (Zpos n * 2 ^ t)) = Zpos n * 2 ^ t).
      { apply Z2Pos.id. apply Z.mul_pos_pos; [lia|].
        apply Z.pow_pos_nonneg; lia. }
      assert (Hdm : Zpos (digits2_pos (Z.to_pos (Zpos n * 2 ^ t))) = prec).
      { pose proof (pos_shift_eq _ n t ltac:(lia) Hm) as Hs.
        destruct t as [|t'|t'] eqn:Et; try lia.
        - rewrite Hs. fold dn. lia.
        - rewrite Hs, iter_xO_digits. fold dn. lia. }
      unfold canonical_int. fold dn. fold t.
      unfold shl_align.
      destruct (Zpos dn - prec - Zpos j) as [|u|u] eqn:Eu; try lia.
      apply binary_round_aux_shift with (j := 0); try lia.
      rewrite Hm, iter_xO_Z, Hv.
      replace (Zpos u) with (Zpos j + t) by (unfold t; lia).
      rewrite Z.pow_add_r by lia. rewrite Z.pow_0_r. ring.
  - replace e with (- (- e)) by lia.
    apply binary_round_integer; [lia | exact Hv | exact Hn].
Qed.

End Exact.

Lemma canonical_int_value (prec : Z) (s : bool) (n : positive) :
  0 < prec -> Zpos n < 2 ^ prec ->
  double_integer (canonical_int prec s n) = Some (cond_Zopp s (Zpos n)).
Proof.
  intros Hprec Hn.
  pose proof (digits2_pos_bound n prec ltac:(lia) Hn) as Hd.
  unfold canonical_int, double_integer.
  set (t := prec - Zpos (digits2_pos n)) in *.
  replace (Zpos (digits2_pos n) - prec) with (- t) by (unfold t; lia).
  rewrite Z2Pos.id
    by (apply Z.mul_pos_pos; [lia|]; apply Z.pow_pos_nonneg; lia).
  destruct (0 <=? - t) eqn:E.
  - apply Z.leb_le in E. replace t with 0 by lia.
    cbn [Z.opp]. rewrite !Z.pow_0_r. f_equal. f_equal. lia.
  - rewrite Z.opp_involutive.
    rewrite Z.mod_mul, Z.eqb_refl, Z.div_mul by (apply Z.pow_nonzero; lia).
    reflexivity.
Qed.

Lemma is_scaled_zero (e v : Z) : is_scaled 0 e v -> v = 0.
Proof.
  intros [[He Hv] | [He Hv]]; [lia|].
  symmetry in Hv. apply Z.mul_eq_0 in Hv.
  destruct Hv as [Hv | Hv]; [exact Hv|].
  pose proof (Z.pow_pos_nonneg 2 (- e) ltac:(lia) ltac:(lia)). lia.
Qed.

Lemma is_scaled_opp (M e v : Z) : is_scaled M e v -> is_scaled (- M) e (- v).
Proof. intros [[He Hv] | [He Hv]]; [left | right]; split; lia. Qed.

(** Normalising a mantissa and exponent that stand for an integer of fewer
    than [prec] bits gives a float with that integer as its value. *)
Lemma binary_normalize_value (prec emax M e v : Z) (sz : bool) :
  0 < prec -> prec < emax -> is_scaled M e v -> Z.abs v < 2 ^ prec ->
  double_integer (binary_normalize prec emax M e sz) = Some v.
Proof.
  intros Hprec Hemax Hs Hv. destruct M as [|p|p]; cbn [binary_normalize].
  - apply is_scaled_zero in Hs. now subst v.
  - assert (Hpos : 0 < v).
    { destruct Hs as [[He Hs] | [He Hs]].
      - pose proof (Z.pow_pos_nonneg 2 e ltac:(lia) He). nia.
      - pose proof (Z.pow_pos_nonneg 2 (- e) ltac:(lia) ltac:(lia)). nia. }
    destruct v as [|n|n]; try lia.
    rewrite (binary_round_scaled prec emax Hprec Hemax false p n e Hs)
      by lia.
    apply canonical_int_value; lia.
  - apply is_scaled_opp in Hs. change (- Zneg p) with (Zpos p) in Hs.
    assert (Hpos : 0 < - v).
    { destruct Hs as [[He Hs] | [He Hs]].
      - pose proof (Z.pow_pos_nonneg 2 e ltac:(lia) He). nia.
      - pose proof (Z.pow_pos_nonneg 2 (- e) ltac:(lia) ltac:(lia)). nia. }
    destruct v as [|n|n]; try lia.
    change (- Zneg n) with (Zpos n) in Hs.
    rewrite (binary_round_scaled prec emax Hprec Hemax true p n e Hs)
      by lia.
    apply canonical_int_value; lia.
Qed.

(** A finite float with an integer value holds that integer as mantissa
    times a power of two. *)
Lemma double_integer_scaled (s : bool) (m : positive) (e v : Z) :
  double_integer (S754_finite s m e) = Some v ->
  is_scaled (cond_Zopp s (Zpos m)) e v.
Proof.
  cbn [double_integer]. destruct (0 <=? e) eqn:E.
  - apply Z.leb_le in E. intros H.
    assert (Hv : v = cond_Zopp s (Zpos m * 2 ^ e)) by congruence.
    left. split; [exact E|]. rewrite Hv.
    destruct s; unfold cond_Zopp; lia.
  - apply Z.leb_gt in E.
    destruct (Zpos m mod 2 ^ (- e) =? 0) eqn:Em; [|discriminate].
    apply Z.eqb_eq in Em. intros H.
    assert (Hv : v = cond_Zopp s (Zpos m / 2 ^ (- e))) by congruence.
    right. split; [lia|]. rewrite Hv.
    assert (H2 : 2 ^ (- e) <> 0) by (apply Z.pow_nonzero; lia).
    pose proof (Z.div_mod (Zpos m) (2 ^ (- e)) H2) as Hdm.
    rewrite Em in Hdm.
    destruct s; unfold cond_Zopp; lia.
Qed.

Lemma shl_align_value (m : positive) (e ez : Z) :
  ez <= e -> Zpos (fst (shl_align m e ez)) = Zpos m * 2 ^ (e - ez).
Proof.
  intros H. unfold shl_align.
  destruct (ez - e) as [|d|d] eqn:E; try lia.
  - replace (e - ez) with 0 by lia. cbn [fst]. rewrite Z.pow_0_r. lia.
  - cbn [fst]. rewrite iter_xO_Z. f_equal. f_equal. lia.
Qed.

Lemma is_scaled_align (s : bool) (m : positive) (e ez v : Z) :
  ez <= e -> is_scaled (cond_Zopp s (Zpos m)) e v ->
  is_scaled (cond_Zopp s (Zpos (fst (shl_align m e ez)))) ez v.
Proof.
  intros Hez Hs. rewrite shl_align_value by exact Hez.
  assert (HM : cond_Zopp s (Zpos m * 2 ^ (e - ez))
               = cond_Zopp s (Zpos m) * 2 ^ (e - ez))
    by (destruct s; unfold cond_Zopp; lia).
  rewrite HM. set (M := cond_Zopp s (Zpos m)) in *. clearbody M.
  destruct (Z_le_gt_dec 0 ez) as [Hz | Hz].
  - left. split; [exact Hz|].
    destruct Hs as [[He Hs] | [He Hs]].
    + rewrite <- Z.mul_assoc, <- Z.pow_add_r by lia.
      now replace (e - ez + ez) with e by lia.
    + replace e with 0 in * by lia. replace ez with 0 by lia.
      cbn in Hs |- *. lia.
  - right. split; [lia|].
    destruct Hs as [[He Hs] | [He Hs]].
    + rewrite Hs, <- Z.mul_assoc, <- Z.pow_add_r by lia.
      now replace (e + - ez) with (e - ez) by lia.
    + rewrite Hs, <- Z.mul_assoc, <- Z.pow_add_r by lia.
      now replace (- e + (e - ez)) with (- ez) by lia.
Qed.

Lemma is_scaled_add (A B e a b : Z) :
  is_scaled A e a -> is_scaled B e b -> is_scaled (A + B) e (a + b).
Proof.
  intros [[Ha Hsa] | [Ha Hsa]] [[Hb Hsb] | [Hb Hsb]].
  - left. split; [exact Ha | lia].
  - replace e with 0 in * by lia. cbn in *. left. split; lia.
  - replace e with 0 in * by lia. cbn in *. left. split; lia.
  - right. split; [exact Ha | lia].
Qed.

(** The [double] sum of two integer-valued floats is exact when it has
    fewer than 53 bits. *)
Lemma double_add_value (x y : double) (a b : Z) :
  double_integer x = Some a -> double_integer y = Some b ->
  Z.abs (a + b) < 2 ^ 53 ->
  double_integer (double_add x y) = Some (a + b).
Proof.
  intros Hx Hy Hab. unfold double_add.
  destruct x as [sa| | |sa ma ea]; try discriminate Hx;
    destruct y as [sb| | |sb mb eb]; try discriminate Hy.
  - cbn in Hx, Hy. injection Hx as <-. injection Hy as <-.
    destruct sa, sb; reflexivity.
  - cbn in Hx. injection Hx as <-. cbn [SFadd]. exact Hy.
  - cbn in Hy. injection Hy as <-. cbn [SFadd].
    rewrite Z.add_0_r. exact Hx.
  - apply double_integer_scaled in Hx, Hy. cbn [SFadd].
    apply binary_normalize_value; try lia.
    apply is_scaled_add; apply is_scaled_align; try lia; assumption.
Qed.

(** Narrowing an integer-valued [double] of fewer than 24 bits to [float]
    is exact. *)
Lemma float_of_double_value (x : double) (v : Z) :
  double_integer x = Some v -> Z.abs v < 2 ^ 24 ->
  double_integer (float_of_double x) = Some v.
Proof.
  intros Hx Hv. destruct x as [s| | |s m e]; try discriminate Hx.
  - exact Hx.
  - cbn [float_of_double]. apply binary_normalize_value; try lia.
    now apply double_integer_scaled.
Qed.

Lemma stored_sum_exact (p o : double) (a b : Z) :
  double_integer p = Some a -> double_integer o = Some b ->
  Z.abs (a + b) < 2 ^ 24 ->
  double_integer (float_of_double (double_add p o)) = Some (a + b).
Proof.
  intros Hp Ho Hab.
  apply float_of_double_value; [|exact Hab].
  apply double_add_value; [exact Hp | exact Ho | lia].
Qed.




(** ** The frame loop: the poses of the tracked bodies *)

Section FrameLoopTracked.

Context {TR : ObjectTrackerOps} {EI : EigenOps}.
Variable env : Env.


End FrameLoopTracked.


(** ** Configuration building: marker templates *)

Lemma find_0_is_prefix (s p : string) : (find s p 0 =? 0) = String.prefix p s.
Proof.
  destruct (String.prefix p s) eqn:E.
  - apply find_0_prefix. now apply prefix_split.
  - destruct (find s p 0 =? 0) eqn:F; [|reflexivity].
    apply find_0_prefix in F. destruct F as [r ->].
    now rewrite prefix_append in E.
Qed.

(** On arrays whose integers lie in the range of [int], [get_vec] returns
    the declared array. *)
Lemma get_vec_declared (pv : ParameterValue) (l : list double) :
  get_vec pv = Ok l -> within_int pv -> declared_array_spec pv = Some l.
Proof.
  unfold get_vec, get_double_array, declared_array_spec, within_int.
  destruct pv; try discriminate.
  - intros H Hw. injection H as <-. apply f_equal.
    apply map_ext_in. intros z Hz. rewrite Forall_forall in Hw.
    rewrite int_of_int64_small by (apply Hw, Hz). reflexivity.
  - intros H _. now injection H as <-.
Qed.

Lemma get_vec_whole (pv : ParameterValue) (l : list double) (i : nat)
    (d : double) (a : Z) :
  get_vec pv = Ok l -> within_int pv ->
  nth_error l i = Some d -> declared_whole_spec pv i = Some a ->
  double_integer d = Some a.
Proof.
  unfold get_vec, get_double_array, declared_whole_spec, within_int.
  destruct pv; try discriminate.
  - intros H Hw Hd Ha. injection H as <-.
    rewrite nth_error_map, Ha in Hd. cbn [option_map] in Hd.
    injection Hd as <-.
    rewrite Forall_forall in Hw.
    pose proof (Hw a (nth_error_In _ _ Ha)) as Hr.
    rewrite int_of_int64_small by exact Hr.
    apply double_of_int_exact. lia.
  - intros H _ Hd Ha. injection H as <-. now rewrite Hd in Ha.
Qed.

Lemma coordinate_sum_built (point offset : ParameterValue)
    (points offs : list double) (i : nat) (pi oi : double) :
  get_vec point = Ok points -> get_vec offset = Ok offs ->
  nth_error points i = Some pi -> nth_error offs i = Some oi ->
  within_int point -> within_int offset ->
  coordinate_sum_spec (float_of_double (double_add pi oi)) point offset i.
Proof.
  intros Hp Ho Hpi Hoi Wp Wo. split.
  - exists points, offs, pi, oi.
    rewrite (get_vec_declared _ _ Hp Wp), (get_vec_declared _ _ Ho Wo).
    repeat (split; [assumption || reflexivity|]). reflexivity.
  - intros a b Ha Hb Hab. apply stored_sum_exact; [| |exact Hab].
    + exact (get_vec_whole _ _ _ _ _ Hp Wp Hpi Ha).
    + exact (get_vec_whole _ _ _ _ _ Ho Wo Hoi Hb).
Qed.

Lemma marker_points_loop (name : string) (offset : ParameterValue)
    (offs : list double) (l : list (string * ParameterValue)) :
  get_vec offset = Ok offs ->
  forall cloud cloud',
    for_each (marker_points_body name offs) l cloud = Ok cloud' ->
    exists added,
      cloud' = (cloud ++ added)%list /\
      Forall2 (fun stored entry =>
                 within_int (snd entry) -> within_int offset ->
                 point_plus_offset_spec stored (snd entry) offset)
              added
              (filter (fun param : string * ParameterValue =>
                         String.prefix
                           ("marker_configurations." ++ name ++ ".points")%string
                           (fst param)) l).
Proof.
  intros Hoffs.
  induction l as [|param l IH]; intros cloud cloud' H; cbn [for_each] in H.
  - injection H as <-. exists []. split; [now rewrite app_nil_r | constructor].
  - bind_inv H. unfold marker_points_body in E. cbn [filter].
    rewrite find_0_is_prefix in E.
    destruct (String.prefix _ (fst param)).
    + bind_named E as points Hpoints.
      bind_named E as p0 Hp0. bind_named E as o0 Ho0.
      bind_named E as p1 Hp1. bind_named E as o1 Ho1.
      bind_named E as p2 Hp2. bind_named E as o2 Ho2.
      injection E as <-.
      destruct (IH _ _ H) as (added & -> & Hadded).
      eexists (_ :: added). split; [now rewrite <- app_assoc|].
      constructor; [|exact Hadded].
      intros Wp Wo.
      apply vec_index_Ok in Hp0, Hp1, Hp2, Ho0, Ho1, Ho2.
      unfold point_plus_offset_spec, PointXYZ_of_doubles. cbn [px py pz].
      split; [|split]; eapply coordinate_sum_built; eassumption.
    + injection E as <-. exact (IH _ _ H).
Qed.

Lemma marker_loop (parameter_overrides : overrides) (i : Z) (names : list string) :
  forall st st',
    for_each (marker_body parameter_overrides i) names st = Ok st' ->
    exists clouds,
      markerConfigurations st' = (markerConfigurations st ++ clouds)%list /\
      Forall2 (template_built parameter_overrides) names clouds.
Proof.
  induction names as [|name names IH]; intros st st' H; cbn [for_each] in H.
  - injection H as <-. exists []. split; [now rewrite app_nil_r | constructor].
  - bind_inv H. unfold marker_body, read_vec in E.
    bind_named E as offs Hoffs. bind_named Hoffs as offset Hoffset.
    bind_named E as cloud Hcloud.
    injection E as <-.
    destruct (IH _ _ H) as (clouds & -> & Hclouds). cbn [markerConfigurations].
    exists (cloud :: clouds). split; [now rewrite <- app_assoc|].
    constructor; [|exact Hclouds].
    exists offset. split.
    + apply at_Ok in Hoffset. now apply StringMap.find_1.
    + destruct (marker_points_loop _ _ _ _ Hoffs _ _ Hcloud)
        as (added & -> & Hadded).
      exact Hadded.
Qed.

(** C8: in every configuration that [main] builds, the marker templates
    correspond one to one, in order, to the names under
    [marker_configurations]; each template holds one stored point for every
    key that begins with [marker_configurations.<name>.points], in key
    order; and where the integers of the point and of the offset lie in the
    range of [int], each coordinate of the stored point is the declared
    coordinate plus the offset's, summed in [double] and rounded to
    [float], exactly their sum when both are whole numbers and the sum has
    fewer than 24 bits. *)
Theorem marker_template_sums
    (parameter_overrides : overrides) (cfg : Configuration) :
  build_configuration parameter_overrides = Ok cfg ->
  exists names,
    extract_names parameter_overrides "marker_configurations" = Ok names /\
    Forall2 (template_built parameter_overrides)
            (StringSet.elements names) (cfg_markerConfigurations cfg).
Proof.
  intros H. unfold build_configuration in H.
  bind_inv H. bind_inv H.
  bind_inv H. rename a1 into names, E1 into Hnames.
  bind_inv H. rename a1 into mk, E1 into Hmk.
  bind_inv H. bind_inv H. injection H as <-.
  exists names. split; [exact Hnames|]. cbn [cfg_markerConfigurations].
  destruct (marker_loop _ _ _ _ _ Hmk) as (clouds & -> & Hclouds).
  exact Hclouds.
Qed.

(** The template ["m"] with offset [[0,0,1]] and the point [[1,0,0]] holds
    the stored point [(1,0,1)]. *)
Lemma marker_template_sums_witness :
  build_configuration Examples.marker_overrides =
    Ok {| cfg_dynamicsConfigurations := [];
          cfg_markerConfigurations :=
            [[ {| px := float_one; py := float_zero; pz := float_one |} ]];
          cfg_objects := [] |} /\
  exists names,
    extract_names Examples.marker_overrides "marker_configurations" = Ok names /\
    Forall2 (template_built Examples.marker_overrides)
            (StringSet.elements names)
            [[ {| px := float_one; py := float_zero; pz := float_one |} ]].
Proof.
  split; [reflexivity|].
  apply (marker_template_sums Examples.marker_overrides
           {| cfg_dynamicsConfigurations := [];
              cfg_markerConfigurations :=
                [[ {| px := float_one; py := float_zero; pz := float_one |} ]];
              cfg_objects := [] |}).
  reflexivity.
Defined.

(** C8 as stated fails: with the keys [offset], [points.0] and [pointsize]
    of the configuration ["m"], the template holds two stored points,
    [(1,0,1)] and [(9,9,10)], while the configuration has the single
    declared point [points.0]: the second stored point is the sum of no
    declared point and the offset. *)
Lemma marker_template_loose_points :
  exists first second,
    build_configuration Examples.loose_points_overrides =
      Ok {| cfg_dynamicsConfigurations := [];
            cfg_markerConfigurations := [[first; second]];
            cfg_objects := [] |} /\
    map double_integer [px first; py first; pz first]
      = [Some 1; Some 0; Some 1] /\
    map double_integer [px second; py second; pz second]
      = [Some 9; Some 9; Some 10] /\
    map fst (entries_under Examples.loose_points_overrides
               "marker_configurations.m.points.")
      = ["marker_configurations.m.points.0"%string] /\
    ~ template_spec Examples.loose_points_overrides "m" [first; second].
Proof.
  exists {| px := float_one; py := float_zero; pz := float_one |},
         (PointXYZ_of_doubles (double_of_int 9) (double_of_int 9)
                              (double_of_int 10)).
  split; [vm_compute; reflexivity|].
  split; [reflexivity|]. split; [reflexivity|]. split; [reflexivity|].
  intros (offset & _ & HF). apply Forall2_length in HF.
  vm_compute in HF. discriminate HF.
Qed.

(** The narrowing of [get_vec] reaches the template: the declared point
    [[4294967296,0,0]] with the offset [[0,0,1]] is stored as [(0,0,1)],
    which is not the declared point plus the offset. *)
Lemma marker_template_narrowed_point :
  build_configuration Examples.wide_point_overrides =
    Ok {| cfg_dynamicsConfigurations := [];
          cfg_markerConfigurations :=
            [[ {| px := float_zero; py := float_zero; pz := float_one |} ]];
          cfg_objects := [] |} /\
  ~ template_spec Examples.wide_point_overrides "m"
      [ {| px := float_zero; py := float_zero; pz := float_one |} ].
Proof.
  split; [reflexivity|].
  intros (offset & Hfind & HF).
  vm_compute in Hfind. injection Hfind as <-.
  assert (Hl : entries_under Examples.wide_point_overrides
                 ("marker_configurations." ++ "m" ++ ".points.")%string
               = [("marker_configurations.m.points.0"%string,
                   PARAMETER_INTEGER_ARRAY [4294967296; 0; 0])])
    by (vm_compute; reflexivity).
  rewrite Hl in HF. clear Hl.
  inversion HF as [|? ? ? ? Hpt _]; subst. clear HF.
  destruct Hpt as (((p & o & pi & oi & Hp & Hpi & Ho & Hoi & Hs) & _) & _).
  cbn [snd declared_array_spec] in Hp, Ho.
  injection Hp as <-. injection Ho as <-.
  cbn [map nth_error] in Hpi, Hoi. injection Hpi as <-. injection Hoi as <-.
  vm_compute in Hs. discriminate Hs.
Qed.
